(** * Streaming chat-completion consumer: [OpenAIModel.__call__] and
      [OpenAIModel.check_connectivity] of sdk/nexent/core/models/openai_llm.py

    The Python method threads a model object, an observer, a token tracker
    and a monitoring manager through a loop over a chunk stream and a
    [try]/[except] block.  The embedding keeps that shape: one record for
    everything the method reads or writes, a state-and-exception monad for
    the control flow, and the stream as the list of things that happen
    while the loop runs.

    What is taken for granted: the observer, the tracker and the
    monitoring manager are known by the calls they receive and do not
    raise; what the stream and the client raise are [Exception]s; a Python
    [str] is kept as its UTF-8 bytes; [ChatCompletionMessage] declares its
    role as the literal "assistant" and refuses any other with a
    [ValidationError], whose text is pydantic's and is taken as given;
    [ChatMessage.from_dict] does not raise; wall-clock times and the
    float-valued sampling parameters are left out. *)

From Stdlib Require Import List String Ascii ZArith Bool Arith Lia.
Import ListNotations.

#[local] Open Scope string_scope.

(** ** Python values the method handles *)

Module Py.

(** An exception caught by [except Exception as e]: the name of its class
    ([type(e).__name__]) and its text ([str(e)]). *)
Record Exn : Type := mkExn { exn_type : string; exn_msg : string }.

Definition IndexError : Exn := mkExn "IndexError" "list index out of range".
Definition RuntimeError (msg : string) : Exn := mkExn "RuntimeError" msg.
Definition ValueError (msg : string) : Exn := mkExn "ValueError" msg.

(** Attribute values handed to the monitoring manager. *)
Inductive Val : Type :=
| VStr (s : string)
| VInt (z : Z).

(** [sub in s] on strings. *)
Fixpoint contains (sub s : string) : bool :=
  if String.prefix sub s then true
  else match s with
       | EmptyString => false
       | String _ s' => contains sub s'
       end.

(** ["".join(l)] *)
Definition join (l : list string) : string := String.concat "" l.

(** [len(s)]: the code points of a string, which are the bytes of its
    UTF-8 form that do not continue a sequence. *)
Definition continues (c : ascii) : bool :=
  (128 <=? nat_of_ascii c)%nat && (nat_of_ascii c <? 192)%nat.

Fixpoint len (s : string) : nat :=
  match s with
  | EmptyString => 0
  | String c rest => if continues c then len rest else S (len rest)
  end.

(** [l[-1]] on a list known to be non-empty; [None] stands for the empty
    list, which the caller tests first. *)
Fixpoint last_item {A : Type} (l : list A) : option A :=
  match l with
  | [] => None
  | [x] => Some x
  | _ :: l' => last_item l'
  end.

End Py.

Import Py.

(** ** The stream *)

(** [chunk.usage]; [completion_tokens] is looked up with [hasattr], so it
    may be missing. *)
Record Usage : Type := mkUsage {
  prompt_tokens : Z;
  completion_tokens : option Z;
  total_tokens : Z
}.

(** [chunk.choices[0].delta]; [reasoning_content] is read with
    [getattr(..., None)]. *)
Record Delta : Type := mkDelta {
  content : option string;
  reasoning_content : option string;
  role : option string
}.

Record Choice : Type := mkChoice { delta : Delta }.

Record Chunk : Type := mkChunk {
  choices : list Choice;
  usage : option Usage
}.

(** What can happen while [for chunk in current_request] runs: the
    iterator yields a chunk, the iterator raises, or another thread sets
    [stop_event].  The end of the list is the end of the stream.  The
    method itself never clears the flag, and nothing here does. *)
Inductive Event : Type :=
| SetStop
| Yield (c : Chunk)
| Raise (e : Exn).

Definition Stream : Type := list Event.

(** ** Collaborators, recorded by the calls they receive *)

Inductive ProcessType : Type :=
| MODEL_OUTPUT_THINKING
| MODEL_OUTPUT_CODE.

Inductive ObserverCall : Type :=
| SetCurrentMode (m : ProcessType)
| AddModelReasoningContent (s : string)
| AddModelNewToken (s : string)
| FlushRemainingTokens.

Inductive TrackerCall : Type :=
| RecordFirstToken
| RecordToken (s : string)
| RecordCompletion (input_tokens output_tokens : Z).

(** Calls on [self._monitoring].  Float-valued attributes (temperature,
    top_p, total_duration) are not represented. *)
Inductive MonitorCall : Type :=
| AddSpanEvent (name : string) (attrs : list (string * Val))
| SetSpanAttributes (attrs : list (string * Val)).

(** The message handed back: [ChatMessage] with its [role], [content] and
    the [raw] stream. *)
Record ChatMessage : Type := mkChatMessage {
  msg_role : string;
  msg_content : string;
  msg_raw : option Stream
}.

Definition MessageRole_ASSISTANT : string := "assistant".

(** ** State *)

Record State : Type := mkState {
  (* the model object *)
  stop_event : bool;
  last_input_token_count : option Z;
  last_output_token_count : option Z;
  (* collaborators *)
  observer : list ObserverCall;
  tracker : list TrackerCall;
  monitoring : list MonitorCall;
  error_log : list string;
  (* locals of __call__ *)
  chunk_list : list Chunk;
  token_join : list string;
  cur_role : option string;
  first_token_received : bool
}.

Definition set_stop_event (b : bool) (s : State) : State :=
  mkState b (last_input_token_count s) (last_output_token_count s)
          (observer s) (tracker s) (monitoring s) (error_log s)
          (chunk_list s) (token_join s) (cur_role s) (first_token_received s).

Definition set_last_token_counts (i o : Z) (s : State) : State :=
  mkState (stop_event s) (Some i) (Some o)
          (observer s) (tracker s) (monitoring s) (error_log s)
          (chunk_list s) (token_join s) (cur_role s) (first_token_received s).

Definition set_observer (l : list ObserverCall) (s : State) : State :=
  mkState (stop_event s) (last_input_token_count s) (last_output_token_count s)
          l (tracker s) (monitoring s) (error_log s)
          (chunk_list s) (token_join s) (cur_role s) (first_token_received s).

Definition set_tracker (l : list TrackerCall) (s : State) : State :=
  mkState (stop_event s) (last_input_token_count s) (last_output_token_count s)
          (observer s) l (monitoring s) (error_log s)
          (chunk_list s) (token_join s) (cur_role s) (first_token_received s).

Definition set_monitoring (l : list MonitorCall) (s : State) : State :=
  mkState (stop_event s) (last_input_token_count s) (last_output_token_count s)
          (observer s) (tracker s) l (error_log s)
          (chunk_list s) (token_join s) (cur_role s) (first_token_received s).

Definition set_error_log (l : list string) (s : State) : State :=
  mkState (stop_event s) (last_input_token_count s) (last_output_token_count s)
          (observer s) (tracker s) (monitoring s) l
          (chunk_list s) (token_join s) (cur_role s) (first_token_received s).

Definition set_chunk_list (l : list Chunk) (s : State) : State :=
  mkState (stop_event s) (last_input_token_count s) (last_output_token_count s)
          (observer s) (tracker s) (monitoring s) (error_log s)
          l (token_join s) (cur_role s) (first_token_received s).

Definition set_token_join (l : list string) (s : State) : State :=
  mkState (stop_event s) (last_input_token_count s) (last_output_token_count s)
          (observer s) (tracker s) (monitoring s) (error_log s)
          (chunk_list s) l (cur_role s) (first_token_received s).

Definition set_cur_role (r : option string) (s : State) : State :=
  mkState (stop_event s) (last_input_token_count s) (last_output_token_count s)
          (observer s) (tracker s) (monitoring s) (error_log s)
          (chunk_list s) (token_join s) r (first_token_received s).

Definition set_first_token_received (b : bool) (s : State) : State :=
  mkState (stop_event s) (last_input_token_count s) (last_output_token_count s)
          (observer s) (tracker s) (monitoring s) (error_log s)
          (chunk_list s) (token_join s) (cur_role s) b.

(** ** The monad: a statement either finishes with a value or raises, and
    leaves a state behind in both cases *)

Definition M (A : Type) : Type := State -> (Exn + A) * State.

Definition ret {A : Type} (a : A) : M A := fun s => (inr a, s).

Definition raise {A : Type} (e : Exn) : M A := fun s => (inl e, s).

Definition bind {A B : Type} (m : M A) (k : A -> M B) : M B :=
  fun s =>
    match m s with
    | (inl e, s') => (inl e, s')
    | (inr a, s') => k a s'
    end.

Definition gets {A : Type} (f : State -> A) : M A := fun s => (inr (f s), s).

Definition modify (f : State -> State) : M unit := fun s => (inr tt, f s).

Definition when (b : bool) (m : M unit) : M unit := if b then m else ret tt.

(** [try: body  except Exception as e: handler e] *)
Definition try_except {A : Type} (body : M A) (handler : Exn -> M A) : M A :=
  fun s =>
    match body s with
    | (inl e, s') => handler e s'
    | (inr a, s') => (inr a, s')
    end.

Declare Scope py_scope.
Delimit Scope py_scope with py.
Notation "x <- m ;; k" := (bind m (fun x => k))
  (at level 61, m at next level, right associativity) : py_scope.
Notation "m ;; k" := (bind m (fun _ => k))
  (at level 61, right associativity) : py_scope.
#[local] Open Scope py_scope.

(** Calls on the collaborators. *)

Definition observer_call (c : ObserverCall) : M unit :=
  modify (fun s => set_observer (observer s ++ [c]) s).

Definition tracker_call (c : TrackerCall) : M unit :=
  modify (fun s => set_tracker (tracker s ++ [c]) s).

Definition add_span_event (name : string) (attrs : list (string * Val)) : M unit :=
  modify (fun s => set_monitoring (monitoring s ++ [AddSpanEvent name attrs]) s).

Definition set_span_attributes (attrs : list (string * Val)) : M unit :=
  modify (fun s => set_monitoring (monitoring s ++ [SetSpanAttributes attrs]) s).

Definition logging_error (line : string) : M unit :=
  modify (fun s => set_error_log (error_log s ++ [line]) s).

(** ** [OpenAIModel] *)

Module OpenAIModel.

(** [chunk.choices[0]] *)
Definition first_choice (c : Chunk) : M Choice :=
  match choices c with
  | [] => raise IndexError
  | ch :: _ => ret ch
  end.

(** [if token_tracker and not first_token_received: ...] *)
Definition note_first_token (token_tracker : bool) : M unit :=
  first <- gets first_token_received ;;
  when (token_tracker && negb first)
       (tracker_call RecordFirstToken ;;
        modify (set_first_token_received true)).

(** The body of [for chunk in current_request]. *)
Definition loop_body (token_tracker : bool) (chunk : Chunk) : M unit :=
  ch <- first_choice chunk ;;
  let new_token := content (delta ch) in
  let reasoning := reasoning_content (delta ch) in
  match reasoning with
  | Some r =>
      observer_call (AddModelReasoningContent r) ;;
      note_first_token token_tracker
  | None => ret tt
  end ;;
  match new_token with
  | Some t =>
      note_first_token token_tracker ;;
      when token_tracker (tracker_call (RecordToken t)) ;;
      observer_call (AddModelNewToken t) ;;
      modify (fun s => set_token_join (token_join s ++ [t]) s) ;;
      modify (set_cur_role (role (delta ch)))
  | None => ret tt
  end ;;
  modify (fun s => set_chunk_list (chunk_list s ++ [chunk]) s) ;;
  stop <- gets stop_event ;;
  if (stop : bool) then
    when token_tracker
         (add_span_event "model_stopped" [("reason", VStr "stop_event_set")]) ;;
    raise (RuntimeError "Model is interrupted by stop event")
  else ret tt.

(** [for chunk in current_request: ...] over what the stream and the
    other threads do meanwhile. *)
Fixpoint for_chunks (token_tracker : bool) (current_request : Stream) : M unit :=
  match current_request with
  | [] => ret tt
  | SetStop :: rest =>
      modify (set_stop_event true) ;; for_chunks token_tracker rest
  | Raise e :: _ => raise e
  | Yield chunk :: rest =>
      loop_body token_tracker chunk ;; for_chunks token_tracker rest
  end.

(** Lines 104-115: the counts of the last chunk's usage, stored on the
    model object. *)
Definition extract_usage : M (Z * Z) :=
  chunks <- gets chunk_list ;;
  match last_item chunks with
  | Some (mkChunk _ (Some u)) =>
      let input_tokens := prompt_tokens u in
      let output_tokens :=
        match completion_tokens u with
        | Some c => c
        | None => total_tokens u
        end in
      modify (set_last_token_counts input_tokens output_tokens) ;;
      ret (input_tokens, output_tokens)
  | _ =>
      modify (set_last_token_counts 0 0) ;;
      ret (0%Z, 0%Z)
  end.

(** The [except Exception as e] block. *)
Definition handler {A : Type} (token_tracker : bool) (e : Exn) : M A :=
  when token_tracker
       (add_span_event "error_occurred"
          [("error_type", VStr (exn_type e)); ("error_message", VStr (exn_msg e))]) ;;
  if contains "context_length_exceeded" (exn_msg e)
  then raise (ValueError ("Token limit exceeded: " ++ exn_msg e))
  else raise e.

(** [role if role else "assistant"]: [None] and the empty string are
    falsy. *)
Definition role_or_assistant (r : option string) : string :=
  match r with
  | Some x => if (x =? "")%string then "assistant" else x
  | None => "assistant"
  end.

Section Library.

(** The text of the [ValidationError] raised for a refused role. *)
Variable validation_text : string -> string.

Definition ValidationError (r : string) : Exn :=
  mkExn "ValidationError" (validation_text r).

(** [ChatCompletionMessage(role=r, content=c).model_dump(include={"role",
    "content", "tool_calls"})]: the role field is declared
    [Literal["assistant"]]; [tool_calls], always [None] here, is left
    out. *)
Definition ChatCompletionMessage (r c : string) : Exn + string * string :=
  if (r =? "assistant")%string then inr (r, c) else inl (ValidationError r).

(** [ChatMessage.from_dict(d)] *)
Definition from_dict (d : string * string) : ChatMessage :=
  mkChatMessage (fst d) (snd d) None.

Definition set_raw (raw : Stream) (m : ChatMessage) : ChatMessage :=
  mkChatMessage (msg_role m) (msg_content m) (Some raw).

Definition set_role (r : string) (m : ChatMessage) : ChatMessage :=
  mkChatMessage r (msg_content m) (msg_raw m).

(** Lines 99-136: what follows the loop inside the [try] block. *)
Definition finalize (token_tracker : bool) (current_request : Stream) : M ChatMessage :=
  observer_call FlushRemainingTokens ;;
  toks <- gets token_join ;;
  let model_output := join toks in
  counts <- extract_usage ;;
  when token_tracker (tracker_call (RecordCompletion (fst counts) (snd counts))) ;;
  chunks <- gets chunk_list ;;
  when token_tracker
       (add_span_event "completion_finished"
          [("output_length", VInt (Z.of_nat (len model_output)));
           ("chunk_count", VInt (Z.of_nat (List.length chunks)))]) ;;
  r <- gets cur_role ;;
  dumped <- match ChatCompletionMessage (role_or_assistant r) model_output with
            | inl e => raise e
            | inr d => ret d
            end ;;
  let message := from_dict dumped in
  let message := set_raw current_request message in
  let message := set_role MessageRole_ASSISTANT message in
  ret message.

(** The [try] block, lines 64-136. *)
Definition consume (token_tracker : bool) (current_request : Stream) : M ChatMessage :=
  for_chunks token_tracker current_request ;;
  finalize token_tracker current_request.

(** Lines 30-61, before the [try].  [token_tracker] says whether the
    decorator supplied a tracker; [model_id] and [messages] only feed the
    span attributes; [request] is what [_prepare_completion_kwargs] and
    [client.chat.completions.create(stream=True, ...)] come to: an
    exception, or the stream. *)
Definition prologue (token_tracker : bool) (model_id : string)
           (messages : list (string * string)) (request : Exn + Stream)
  : M Stream :=
  when token_tracker
       (add_span_event "completion_started" [] ;;
        set_span_attributes
          [("model_id", VStr model_id);
           ("message_count", VInt (Z.of_nat (List.length messages)))]) ;;
  current_request <- match request with
                     | inl e => raise e
                     | inr stream => ret stream
                     end ;;
  modify (set_chunk_list []) ;;
  modify (set_token_join []) ;;
  modify (set_cur_role None) ;;
  observer_call (SetCurrentMode MODEL_OUTPUT_THINKING) ;;
  modify (set_first_token_received false) ;;
  ret current_request.

(** [__call__] *)
Definition call (token_tracker : bool) (model_id : string)
           (messages : list (string * string)) (request : Exn + Stream)
  : M ChatMessage :=
  current_request <- prologue token_tracker model_id messages request ;;
  try_except (consume token_tracker current_request) (handler token_tracker).

End Library.

(** [check_connectivity]: [request] is what the preparation of the
    one-message request and the non-streaming [create] come to. *)
Definition check_connectivity (request : Exn + unit) : M bool :=
  try_except
    (match request with
     | inl e => raise e
     | inr _ => ret tt
     end ;;
     ret true)
    (fun e =>
       logging_error ("Connection test failed: " ++ exn_msg e) ;;
       ret false).

(** ** Reading a chunk and a stream *)

Definition well_formed (c : Chunk) : bool :=
  match choices c with
  | [] => false
  | _ :: _ => true
  end.

Definition chunk_delta (c : Chunk) : option Delta :=
  match choices c with
  | [] => None
  | ch :: _ => Some (delta ch)
  end.

Definition chunk_content (c : Chunk) : option string :=
  match chunk_delta c with
  | Some d => content d
  | None => None
  end.

Definition chunk_reasoning (c : Chunk) : option string :=
  match chunk_delta c with
  | Some d => reasoning_content d
  | None => None
  end.

Definition chunk_role (c : Chunk) : option string :=
  match chunk_delta c with
  | Some d => role d
  | None => None
  end.

Definition is_some {A : Type} (o : option A) : bool :=
  match o with
  | Some _ => true
  | None => false
  end.

Definition opt_list {A : Type} (o : option A) : list A :=
  match o with
  | Some a => [a]
  | None => []
  end.

(** A chunk carrying a delta of either kind that is not [None]. *)
Definition has_delta (c : Chunk) : bool :=
  is_some (chunk_reasoning c) || is_some (chunk_content c).

(** The content deltas of a chunk sequence, in order. *)
Definition content_deltas (cs : list Chunk) : list string :=
  flat_map (fun c => opt_list (chunk_content c)) cs.

(** The chunks a stream yields, in order. *)
Fixpoint yielded (tr : Stream) : list Chunk :=
  match tr with
  | [] => []
  | Yield c :: rest => c :: yielded rest
  | _ :: rest => yielded rest
  end.

Definition stop_error : Exn := RuntimeError "Model is interrupted by stop event".

Definition model_stopped : MonitorCall :=
  AddSpanEvent "model_stopped" [("reason", VStr "stop_event_set")].

Definition error_occurred (e : Exn) : MonitorCall :=
  AddSpanEvent "error_occurred"
    [("error_type", VStr (exn_type e)); ("error_message", VStr (exn_msg e))].

Definition completion_started : MonitorCall :=
  AddSpanEvent "completion_started" [].

Definition span_attributes (model_id : string) (messages : list (string * string))
  : MonitorCall :=
  SetSpanAttributes
    [("model_id", VStr model_id);
     ("message_count", VInt (Z.of_nat (List.length messages)))].

Definition completion_finished (model_output : string) (chunks : list Chunk)
  : MonitorCall :=
  AddSpanEvent "completion_finished"
    [("output_length", VInt (Z.of_nat (len model_output)));
     ("chunk_count", VInt (Z.of_nat (List.length chunks)))].

(** The counts the usage summary of a chunk gives. *)
Definition usage_pair (u : Usage) : Z * Z :=
  (prompt_tokens u,
   match completion_tokens u with
   | Some c => c
   | None => total_tokens u
   end).

(** The counts reported for a chunk list: those of the last chunk's usage
    summary, zero when there is no last chunk or it has no summary. *)
Definition usage_counts (cs : list Chunk) : Z * Z :=
  match last_item cs with
  | Some c => match usage c with
              | Some u => usage_pair u
              | None => (0%Z, 0%Z)
              end
  | None => (0%Z, 0%Z)
  end.

(** What the [except] block raises for a caught [e]. *)
Definition reraised (e : Exn) : Exn :=
  if contains "context_length_exceeded" (exn_msg e)
  then ValueError ("Token limit exceeded: " ++ exn_msg e)
  else e.

(** What one iteration over a well-formed chunk adds to the observer
    and to the tracker. *)
Definition body_observer (c : Chunk) : list ObserverCall :=
  match chunk_reasoning c with
  | Some r => [AddModelReasoningContent r]
  | None => []
  end ++
  match chunk_content c with
  | Some t => [AddModelNewToken t]
  | None => []
  end.

Definition body_tracker (token_tracker first : bool) (c : Chunk) : list TrackerCall :=
  if token_tracker then
    (if negb first && has_delta c then [RecordFirstToken] else []) ++
    match chunk_content c with
    | Some t => [RecordToken t]
    | None => []
    end
  else [].

(** The state an iteration over a well-formed chunk leaves. *)
Definition body_state (token_tracker : bool) (c : Chunk) (s : State) : State :=
  mkState (stop_event s) (last_input_token_count s) (last_output_token_count s)
          (observer s ++ body_observer c)
          (tracker s ++ body_tracker token_tracker (first_token_received s) c)
          (monitoring s ++ if stop_event s && token_tracker then [model_stopped] else [])
          (error_log s)
          (chunk_list s ++ [c])
          (token_join s ++ opt_list (chunk_content c))
          (match chunk_content c with
           | Some _ => chunk_role c
           | None => cur_role s
           end)
          (first_token_received s || (token_tracker && has_delta c)).

(** The state in which the [try] block is entered.  The prologue treats
    every stream alike, so it is run here on the empty one. *)
Definition entry_state (token_tracker : bool) (model_id : string)
           (messages : list (string * string)) (s : State) : State :=
  snd (prologue token_tracker model_id messages (inr []) s).

(** How many times [record_first_token] was called. *)
Fixpoint count_first_token (l : list TrackerCall) : nat :=
  match l with
  | [] => 0
  | RecordFirstToken :: l' => S (count_first_token l')
  | _ :: l' => count_first_token l'
  end.

(** Whether [ChatCompletionMessage] takes the role made of the local
    [role]: [None], [""] and ["assistant"] pass. *)
Definition accepted (r : option string) : bool :=
  (role_or_assistant r =? "assistant")%string.

(** The state finalization leaves, whether the message is built or
    refused. *)
Definition finalize_state (token_tracker : bool) (s : State) : State :=
  mkState (stop_event s)
          (Some (fst (usage_counts (chunk_list s))))
          (Some (snd (usage_counts (chunk_list s))))
          (observer s ++ [FlushRemainingTokens])
          (tracker s ++
           if token_tracker
           then [RecordCompletion (fst (usage_counts (chunk_list s)))
                                  (snd (usage_counts (chunk_list s)))]
           else [])
          (monitoring s ++
           if token_tracker
           then [completion_finished (join (token_join s)) (chunk_list s)]
           else [])
          (error_log s) (chunk_list s) (token_join s) (cur_role s)
          (first_token_received s).

(** An event the loop gets past without a fault: the flag being set, or
    a chunk with at least one choice. *)
Definition deliverable (ev : Event) : bool :=
  match ev with
  | SetStop => true
  | Yield c => well_formed c
  | Raise _ => false
  end.

(** The value of the local [role] after a chunk sequence: each chunk with
    a content delta overwrites it with its own role tag. *)
Definition last_content_role (cs : list Chunk) : option string :=
  fold_left (fun r c => match chunk_content c with
                        | Some _ => chunk_role c
                        | None => r
                        end) cs None.

(** Role resolution as the specification words it: the role tag of the
    first content-bearing chunk that carries one, kept from then on; the
    assistant role when there is none. *)
Fixpoint spec_resolved_role (cs : list Chunk) : string :=
  match cs with
  | [] => "assistant"
  | c :: rest =>
      match chunk_content c, chunk_role c with
      | Some _, Some r => r
      | _, _ => spec_resolved_role rest
      end
  end.

(** The tracker calls of one invocation, [base] being the calls made
    before it: [record_first_token] comes first, and only once some
    processed chunk carried a delta. *)
Definition first_token_inv (base : list TrackerCall) (s : State) : Prop :=
  exists rest,
    tracker s =
      (base ++ if existsb has_delta (chunk_list s)
               then RecordFirstToken :: rest else [])%list /\
    count_first_token rest = 0 /\
    first_token_received s = existsb has_delta (chunk_list s).

End OpenAIModel.

Import OpenAIModel.

(** ** Sample inputs *)

Module Sample.

(** A model object on which nothing has happened yet. *)
Definition fresh : State :=
  mkState false None None [] [] [] [] [] [] None false.

(** The same, after an earlier call that reported 5 and 2 tokens. *)
Definition used : State := set_last_token_counts 5 2 fresh.

(** The same, with the stop event already set. *)
Definition stopped : State := set_stop_event true fresh.

Definition content_chunk (t : string) (r : option string) : Chunk :=
  mkChunk [mkChoice (mkDelta (Some t) None r)] None.

Definition reasoning_chunk (t : string) : Chunk :=
  mkChunk [mkChoice (mkDelta None (Some t) None)] None.

Definition usage_chunk (u : Usage) : Chunk :=
  mkChunk [mkChoice (mkDelta None None None)] (Some u).

(** The three chunks of the specification's scenario. *)
Definition hello : list Chunk :=
  [content_chunk "Hel" None; content_chunk "lo" None;
   usage_chunk (mkUsage 5 (Some 2%Z) 7)].

Definition messages : list (string * string) := [("user", "Hi")].

Definition context_fault : Exn :=
  mkExn "BadRequestError" "Error code: 400 - context_length_exceeded".

Definition network_fault : Exn :=
  mkExn "APIConnectionError" "Connection error.".

(** A text for the refusal of a role. *)
Definition validation_text (r : string) : string :=
  "1 validation error for ChatCompletionMessage: role: Input should be 'assistant', not '"
  ++ r ++ "'".

End Sample.

(** ** Shapes of streams *)

(** Whether the loop gets through a stream without raising, started with
    the flag at [stop]: the stream does not raise, every chunk has a
    choice, and no chunk comes once the flag is set. *)
Fixpoint completes (stop : bool) (tr : Stream) : bool :=
  match tr with
  | [] => true
  | SetStop :: rest => completes true rest
  | Yield c :: rest => well_formed c && negb stop && completes stop rest
  | Raise _ :: _ => false
  end.

(** The chunks that go through the loop body, started with the flag at
    [stop]: those yielded before the stream raises or yields a chunk
    without a choice, and up to the first one yielded with the flag set. *)
Fixpoint processed (stop : bool) (tr : Stream) : list Chunk :=
  match tr with
  | [] => []
  | SetStop :: rest => processed true rest
  | Yield c :: rest =>
      if well_formed c
      then c :: (if stop then [] else processed stop rest)
      else []
  | Raise _ :: _ => []
  end.

(** The [record_token] calls among tracker calls, and the tokens handed to
    the observer among observer calls. *)
Fixpoint recorded_tokens (l : list TrackerCall) : list string :=
  match l with
  | [] => []
  | RecordToken t :: l' => t :: recorded_tokens l'
  | _ :: l' => recorded_tokens l'
  end.

Fixpoint observed_tokens (l : list ObserverCall) : list string :=
  match l with
  | [] => []
  | AddModelNewToken t :: l' => t :: observed_tokens l'
  | _ :: l' => observed_tokens l'
  end.

(** * backend/database/client.py *)

(** ** The UTF-8 codec behind [clean_string_values]

    A Python [str] is a sequence of code points, lone surrogates included;
    [bytes] is a sequence of integers below 256. *)

Module Utf8.

#[local] Open Scope Z_scope.

Definition is_code_point (cp : Z) : Prop := 0 <= cp < 0x110000.

Definition is_surrogate (cp : Z) : bool := (0xD800 <=? cp) && (cp <=? 0xDFFF).

(** The bytes of one code point that is not a surrogate. *)
Definition encode_cp (cp : Z) : list Z :=
  if cp <? 0x80 then [cp]
  else if cp <? 0x800 then [0xC0 + cp / 64; 0x80 + cp mod 64]
  else if cp <? 0x10000 then
    [0xE0 + cp / 4096; 0x80 + (cp / 64) mod 64; 0x80 + cp mod 64]
  else
    [0xF0 + cp / 262144; 0x80 + (cp / 4096) mod 64; 0x80 + (cp / 64) mod 64;
     0x80 + cp mod 64].

(** [s.encode('utf-8', errors='ignore')]: a surrogate cannot be encoded,
    and the [ignore] handler drops it. *)
Definition encode_ignore (s : list Z) : list Z :=
  flat_map (fun cp => if is_surrogate cp then [] else encode_cp cp) s.

Definition is_cont (b : Z) : bool := (0x80 <=? b) && (b <=? 0xBF).

Definition push (cp : Z) (r : option (list Z)) : option (list Z) :=
  option_map (cons cp) r.

(** [bs.decode('utf-8')], strict: [None] stands for [UnicodeDecodeError]
    (a stray or missing continuation byte, an overlong form, an encoded
    surrogate, a value above U+10FFFF). *)
Fixpoint decode (bs : list Z) : option (list Z) :=
  match bs with
  | [] => Some []
  | b0 :: r0 =>
      if b0 <? 0x80 then push b0 (decode r0)
      else if b0 <? 0xC2 then None
      else if b0 <? 0xE0 then
        match r0 with
        | b1 :: r1 =>
            if is_cont b1
            then push ((b0 - 0xC0) * 64 + (b1 - 0x80)) (decode r1)
            else None
        | _ => None
        end
      else if b0 <? 0xF0 then
        match r0 with
        | b1 :: b2 :: r2 =>
            let cp := (b0 - 0xE0) * 4096 + (b1 - 0x80) * 64 + (b2 - 0x80) in
            if is_cont b1 && is_cont b2 && (0x800 <=? cp) && negb (is_surrogate cp)
            then push cp (decode r2)
            else None
        | _ => None
        end
      else if b0 <? 0xF5 then
        match r0 with
        | b1 :: b2 :: b3 :: r3 =>
            let cp := (b0 - 0xF0) * 262144 + (b1 - 0x80) * 4096
                      + (b2 - 0x80) * 64 + (b3 - 0x80) in
            if is_cont b1 && is_cont b2 && is_cont b3
               && (0x10000 <=? cp) && (cp <=? 0x10FFFF)
            then push cp (decode r3)
            else None
        | _ => None
        end
      else None
  end.

(** A string without its lone surrogates. *)
Definition without_surrogates (s : list Z) : list Z :=
  filter (fun cp => negb (is_surrogate cp)) s.

End Utf8.

(** ** [PostgresClient] *)

Module PostgresClient.

(** The values of a row dictionary: strings, and whatever else a column
    may hold. *)
Inductive Value : Type :=
| VText (s : list Z)
| VInteger (z : Z)
| VBoolean (b : bool)
| VBytes (bs : list Z)
| VNull.

(** A [dict] with string keys, in insertion order. *)
Definition Dict : Type := list (string * Value).

(** [d[k] = v]: an existing key keeps its place and takes the new value, a
    new key goes to the end. *)
Fixpoint dict_set (k : string) (v : Value) (d : Dict) : Dict :=
  match d with
  | [] => [(k, v)]
  | (k', v') :: rest =>
      if (k =? k')%string then (k', v) :: rest
      else (k', v') :: dict_set k v rest
  end.

Definition UnicodeDecodeError : Exn :=
  mkExn "UnicodeDecodeError" "'utf-8' codec can't decode bytes".

(** Lines 45-48: the value stored for one item. *)
Definition clean_value (value : Value) : Exn + Value :=
  match value with
  | VText s =>
      match Utf8.decode (Utf8.encode_ignore s) with
      | Some s' => inr (VText s')
      | None => inl UnicodeDecodeError
      end
  | _ => inr value
  end.

(** [for key, value in data.items(): cleaned_data[key] = ...] *)
Fixpoint clean_items (items : Dict) (cleaned_data : Dict) : Exn + Dict :=
  match items with
  | [] => inr cleaned_data
  | (key, value) :: rest =>
      match clean_value value with
      | inl e => inl e
      | inr v => clean_items rest (dict_set key v cleaned_data)
      end
  end.

Definition clean_string_values (data : Dict) : Exn + Dict :=
  clean_items data [].

(** What cleaning comes to, value by value. *)
Definition stripped (value : Value) : Value :=
  match value with
  | VText s => VText (Utf8.without_surrogates s)
  | _ => value
  end.

(** A dictionary as Python builds it: no key twice, every string made of
    code points. *)
Definition well_formed_value (value : Value) : Prop :=
  match value with
  | VText s => Forall Utf8.is_code_point s
  | _ => True
  end.

Definition well_formed_dict (d : Dict) : Prop :=
  NoDup (map fst d) /\ Forall (fun kv => well_formed_value (snd kv)) d.

(** [__new__]: the class keeps the one instance it has handed out.
    [heap] counts the objects allocated so far; a new object is named by
    that count. *)
Record Class : Type := mkClass {
  instance_ : option nat;
  heap : nat
}.

Definition new (cls : Class) : nat * Class :=
  match instance_ cls with
  | None => (heap cls, mkClass (Some (heap cls)) (S (heap cls)))
  | Some obj => (obj, cls)
  end.

(** [n] constructor calls in a row, and the objects they return. *)
Fixpoint new_times (n : nat) (cls : Class) : list nat * Class :=
  match n with
  | O => ([], cls)
  | S n' =>
      let (obj, cls1) := new cls in
      let (objs, cls2) := new_times n' cls1 in
      (obj :: objs, cls2)
  end.

End PostgresClient.

(** ** [MinioClient] *)

Module MinioClient.

(** The fields the methods read; both come from [os.getenv] and may be
    [None]. *)
Record Self : Type := mkSelf {
  endpoint : option string;
  default_bucket : option string
}.

(** One entry of [response['Contents']]: a dictionary in which each of the
    three keys read may be missing. *)
Record S3Object : Type := mkS3Object {
  obj_Key : option string;
  obj_Size : option Z;
  obj_LastModified : option string
}.

Record FileInfo : Type := mkFileInfo {
  key : string;
  size : Z;
  last_modified : string
}.

(** The boto3 client, by what its calls come to. *)
Record S3 : Type := mkS3 {
  s3_upload_file : string -> option string -> string -> Exn + unit;
  s3_list_objects_v2 : option string -> string -> Exn + option (list S3Object)
}.

(** [f"{x}"] of an optional string. *)
Definition fmt (x : option string) : string :=
  match x with
  | Some s => s
  | None => "None"
  end.

(** [bucket or self.default_bucket]: [None] and [""] are falsy. *)
Definition bucket_or (bucket default : option string) : option string :=
  match bucket with
  | Some (String a b) => Some (String a b)
  | _ => default
  end.

(** [p.rfind('/')]: the index of the last slash, [None] for -1. *)
Fixpoint rfind_slash (p : string) : option nat :=
  match p with
  | EmptyString => None
  | String c rest =>
      match rfind_slash rest with
      | Some i => Some (S i)
      | None => if (c =? "/")%char then Some 0 else None
      end
  end.

(** [p[i:]] *)
Fixpoint drop (i : nat) (p : string) : string :=
  match i, p with
  | O, _ => p
  | S i', String _ rest => drop i' rest
  | S _, EmptyString => EmptyString
  end.

(** [os.path.basename(p)] (POSIX): [i = p.rfind('/') + 1; return p[i:]]. *)
Definition basename (p : string) : string :=
  match rfind_slash p with
  | Some i => drop (S i) p
  | None => p
  end.

(** [upload_file], lines 97-106. *)
Definition upload_file (self : Self) (client : S3) (file_path : string)
           (object_name : option string) (bucket : option string) : bool * string :=
  let bucket := bucket_or bucket (default_bucket self) in
  let object_name := match object_name with
                     | None => basename file_path
                     | Some n => n
                     end in
  match s3_upload_file client file_path bucket object_name with
  | inr _ => (true, fmt (endpoint self) ++ "/" ++ fmt bucket ++ "/" ++ object_name)
  | inl e => (false, exn_msg e)
  end.

Definition KeyError (k : string) : Exn := mkExn "KeyError" ("'" ++ k ++ "'").

(** Lines 183-184: [files.append({...})] for each object; a missing key
    raises [KeyError] at the first subscript that fails. *)
Fixpoint collect (contents : list S3Object) (files : list FileInfo)
  : Exn + list FileInfo :=
  match contents with
  | [] => inr files
  | obj :: rest =>
      match obj_Key obj with
      | None => inl (KeyError "Key")
      | Some k =>
          match obj_Size obj with
          | None => inl (KeyError "Size")
          | Some sz =>
              match obj_LastModified obj with
              | None => inl (KeyError "LastModified")
              | Some t => collect rest (files ++ [mkFileInfo k sz t])
              end
          end
      end
  end.

(** [list_files], lines 178-188; the second component is what is
    printed. *)
Definition list_files (self : Self) (client : S3) (prefix : string)
           (bucket : option string) : list FileInfo * list string :=
  let bucket := bucket_or bucket (default_bucket self) in
  let failed (e : Exn) := ([], ["Error listing files: " ++ exn_msg e]) in
  match s3_list_objects_v2 client bucket prefix with
  | inl e => failed e
  | inr None => ([], [])
  | inr (Some contents) =>
      match collect contents [] with
      | inl e => failed e
      | inr files => (files, [])
      end
  end.

(** An object that has the three keys, and the entry made of it. *)
Definition complete (obj : S3Object) : bool :=
  match obj_Key obj, obj_Size obj, obj_LastModified obj with
  | Some _, Some _, Some _ => true
  | _, _, _ => false
  end.

Definition info (obj : S3Object) : list FileInfo :=
  match obj_Key obj, obj_Size obj, obj_LastModified obj with
  | Some k, Some sz, Some t => [mkFileInfo k sz t]
  | _, _, _ => []
  end.

End MinioClient.

(** ** Sample data for the storage layer *)

Module SampleStore.

(** "a", a lone high surrogate, "é", "€", U+1F600. *)
Definition dirty : list Z := [97; 0xD83D; 233; 0x20AC; 0x1F600]%Z.

Definition row : PostgresClient.Dict :=
  [("name", PostgresClient.VText dirty);
   ("age", PostgresClient.VInteger 41);
   ("note", PostgresClient.VNull)].

Definition self : MinioClient.Self :=
  MinioClient.mkSelf (Some "http://minio:9000") (Some "nexent").

(** A store that takes every upload and lists two objects, the second
    without its size. *)
Definition s3 : MinioClient.S3 :=
  MinioClient.mkS3
    (fun _ _ _ => inr tt)
    (fun _ _ =>
       inr (Some [MinioClient.mkS3Object (Some "a.txt") (Some 3%Z) (Some "2024-01-01");
                  MinioClient.mkS3Object (Some "b.txt") None (Some "2024-01-02")])).

End SampleStore.

(** * Facts *)

#[local] Open Scope list_scope.

(** ** Strings and lists *)

Lemma prefix_app : forall p s : string,
  String.prefix p s = true <-> exists t, s = (p ++ t)%string.
Proof.
  induction p as [|a p IH]; intros s.
  - split; [intros _; exists s; reflexivity | intros _; destruct s; reflexivity].
  - destruct s as [|b s]; simpl.
    + split; [discriminate | intros [t H]; discriminate].
    + destruct (Ascii.ascii_dec a b) as [->|Hab].
      * rewrite IH. split; intros [t H]; exists t; [rewrite H | inversion H]; reflexivity.
      * split; [discriminate | intros [t H]; inversion H; congruence].
Qed.

(** [contains] is the substring test. *)
Lemma contains_spec : forall sub s : string,
  contains sub s = true <-> exists a b, s = (a ++ sub ++ b)%string.
Proof.
  intros sub s; induction s as [|c s IH]; cbn [contains].
  - destruct (String.prefix sub "") eqn:E.
    + split; [intros _ | reflexivity].
      apply prefix_app in E as [t E]. exists "", t. exact E.
    + split; [discriminate|]. intros [a [b H]].
      destruct a; [|discriminate]. simpl in H.
      assert (String.prefix sub "" = true) by (apply prefix_app; exists b; exact H).
      congruence.
  - destruct (String.prefix sub (String c s)) eqn:E.
    + split; [intros _ | reflexivity].
      apply prefix_app in E as [t E]. exists "", t. exact E.
    + rewrite IH. split.
      * intros [a [b H]]. exists (String c a), b. simpl. rewrite H. reflexivity.
      * intros [a [b H]]. destruct a as [|c' a].
        -- simpl in H.
           assert (String.prefix sub (String c s) = true)
             by (apply prefix_app; exists b; exact H).
           congruence.
        -- simpl in H. inversion H. exists a, b. reflexivity.
Qed.

Lemma last_item_snoc : forall (A : Type) (l : list A) (x : A),
  last_item (l ++ [x]) = Some x.
Proof.
  induction l as [|y l IH]; intros x; [reflexivity|].
  simpl. destruct (l ++ [x]) eqn:E.
  - destruct l; discriminate.
  - rewrite <- E. apply IH.
Qed.

(** ** One iteration *)

Ltac run_monad :=
  cbv [loop_body first_choice note_first_token extract_usage handler consume
       finalize prologue call check_connectivity entry_state
       bind ret raise gets modify when try_except
       observer_call tracker_call add_span_event set_span_attributes logging_error].

Lemma loop_body_malformed : forall tk c st,
  well_formed c = false -> loop_body tk c st = (inl IndexError, st).
Proof.
  intros tk [[|ch chs] us] st H; [reflexivity | discriminate].
Qed.

Lemma loop_body_eq : forall tk c st,
  well_formed c = true ->
  loop_body tk c st =
  (if stop_event st then inl stop_error else inr tt, body_state tk c st).
Proof.
  intros tk [[|[[ct rs rl]] chs] us] st H; [discriminate|].
  destruct st as [stop li lo obs trk mon elog cl tj cr first].
  cbv [body_state body_observer body_tracker has_delta chunk_content
       chunk_reasoning chunk_role chunk_delta opt_list is_some model_stopped].
  run_monad.
  destruct rs, ct, tk, first, stop; simpl;
    rewrite <- ?app_assoc, ?app_nil_r; reflexivity.
Qed.

(** ** The loop *)

Lemma for_chunks_set_stop : forall tk rest st,
  for_chunks tk (SetStop :: rest) st = for_chunks tk rest (set_stop_event true st).
Proof. reflexivity. Qed.

Lemma for_chunks_raise : forall tk e rest st,
  for_chunks tk (Raise e :: rest) st = (inl e, st).
Proof. reflexivity. Qed.

Lemma for_chunks_yield : forall tk c rest st,
  well_formed c = true ->
  for_chunks tk (Yield c :: rest) st =
  if stop_event st then (inl stop_error, body_state tk c st)
  else for_chunks tk rest (body_state tk c st).
Proof.
  intros tk c rest st H. cbn [for_chunks]. unfold bind.
  rewrite (loop_body_eq tk c st H). destruct (stop_event st); reflexivity.
Qed.

Lemma for_chunks_yield_malformed : forall tk c rest st,
  well_formed c = false ->
  for_chunks tk (Yield c :: rest) st = (inl IndexError, st).
Proof.
  intros tk c rest st H. cbn [for_chunks]. unfold bind.
  rewrite (loop_body_malformed tk c st H). reflexivity.
Qed.

(** Case analysis on the first event of a stream, with the loop unfolded
    one step. *)
Ltac step_loop c :=
  match goal with
  | |- context [for_chunks ?tk (SetStop :: ?r) ?st] =>
      rewrite (for_chunks_set_stop tk r st)
  | |- context [for_chunks ?tk (Raise ?e :: ?r) ?st] =>
      rewrite (for_chunks_raise tk e r st)
  | |- context [for_chunks ?tk (Yield c :: ?r) ?st] =>
      let W := fresh "W" in
      destruct (well_formed c) eqn:W;
      [ rewrite (for_chunks_yield tk c r st W)
      | rewrite (for_chunks_yield_malformed tk c r st W) ]
  end.

(** The loop touches neither the stored token counts nor the error log. *)
Lemma for_chunks_frame : forall tk tr st,
  let st' := snd (for_chunks tk tr st) in
  last_input_token_count st' = last_input_token_count st /\
  last_output_token_count st' = last_output_token_count st /\
  error_log st' = error_log st.
Proof.
  intros tk tr; induction tr as [|[|c|e] tr IH]; intros st; cbn zeta.
  - auto.
  - step_loop c. apply (IH (set_stop_event true st)).
  - step_loop c; [|auto].
    destruct (stop_event st); [cbn; auto|].
    apply (IH (body_state tk c st)).
  - step_loop c. auto.
Qed.

(** When the loop runs to the end of the stream, every yielded chunk went
    through the body, in order. *)
Lemma for_chunks_done : forall tk tr st st',
  for_chunks tk tr st = (inr tt, st') ->
  chunk_list st' = chunk_list st ++ yielded tr /\
  token_join st' = token_join st ++ content_deltas (yielded tr) /\
  monitoring st' = monitoring st /\
  Forall (fun c => well_formed c = true) (yielded tr).
Proof.
  intros tk tr; induction tr as [|[|c|e] tr IH]; intros st st' H.
  - inversion H; subst. cbn. rewrite !app_nil_r. auto.
  - rewrite for_chunks_set_stop in H. apply IH in H. exact H.
  - revert H. step_loop c; [|discriminate].
    destruct (stop_event st) eqn:S; [discriminate|]. intros H.
    apply IH in H. destruct H as (H1 & H2 & H3 & H4).
    cbn [yielded content_deltas flat_map]. cbn in H1, H2, H3.
    rewrite S in H3. cbn in H3. rewrite app_nil_r in H3.
    rewrite <- !app_assoc in *. cbn in H1.
    repeat split; auto.
  - rewrite for_chunks_raise in H. discriminate.
Qed.

Lemma for_chunks_role : forall tk tr st st',
  for_chunks tk tr st = (inr tt, st') ->
  cur_role st' =
  fold_left (fun r c => match chunk_content c with
                        | Some _ => chunk_role c
                        | None => r
                        end) (yielded tr) (cur_role st).
Proof.
  intros tk tr; induction tr as [|[|c|e] tr IH]; intros st st' H.
  - inversion H; subst. reflexivity.
  - rewrite for_chunks_set_stop in H. apply IH in H. exact H.
  - revert H. step_loop c; [|discriminate].
    destruct (stop_event st); [discriminate|]. intros H.
    apply IH in H. exact H.
  - rewrite for_chunks_raise in H. discriminate.
Qed.

(** How the loop ends. *)

Lemma for_chunks_app : forall tk a b st,
  for_chunks tk (a ++ b) st =
  match for_chunks tk a st with
  | (inl e, st') => (inl e, st')
  | (inr _, st') => for_chunks tk b st'
  end.
Proof.
  intros tk a b; induction a as [|[|c|e] a IH]; intros st.
  - reflexivity.
  - cbn [app]. rewrite !for_chunks_set_stop. apply IH.
  - cbn [app]. destruct (well_formed c) eqn:W.
    + rewrite !(for_chunks_yield tk c _ st W).
      destruct (stop_event st); [reflexivity | apply IH].
    + rewrite !(for_chunks_yield_malformed tk c _ st W). reflexivity.
  - reflexivity.
Qed.


Lemma for_chunks_completes : forall tk tr st,
  completes (stop_event st) tr = true ->
  exists st', for_chunks tk tr st = (inr tt, st') /\
              (stop_event st' = true <-> stop_event st = true \/ In SetStop tr).
Proof.
  intros tk tr; induction tr as [|[|c|e] tr IH]; intros st H.
  - exists st. split; [reflexivity|]. cbn. tauto.
  - cbn [completes] in H. rewrite for_chunks_set_stop.
    destruct (IH (set_stop_event true st) H) as (st' & E & S).
    exists st'. split; [exact E|]. cbn in S |- *. intuition auto.
  - cbn [completes] in H.
    apply andb_prop in H as [H H3]. apply andb_prop in H as [W H2].
    apply negb_true_iff in H2.
    rewrite (for_chunks_yield tk c tr st W), H2.
    destruct (IH (body_state tk c st)) as (st' & E & S).
    { cbn. exact H3. }
    exists st'. split; [exact E|]. cbn in S |- *. rewrite H2 in *.
    split; [intros X; apply S in X; destruct X; [discriminate | auto]|].
    intros [X|[X|X]]; [discriminate | discriminate | apply S; auto].
  - discriminate.
Qed.

Lemma for_chunks_returns_completes : forall tk tr st st',
  for_chunks tk tr st = (inr tt, st') -> completes (stop_event st) tr = true.
Proof.
  intros tk tr; induction tr as [|[|c|e] tr IH]; intros st st' H.
  - reflexivity.
  - rewrite for_chunks_set_stop in H. apply IH in H. exact H.
  - revert H. step_loop c; [|discriminate].
    destruct (stop_event st) eqn:S; [discriminate|]. intros H.
    apply IH in H. cbn [completes]. rewrite W. cbn in H |- *.
    rewrite S in H. exact H.
  - rewrite for_chunks_raise in H. discriminate.
Qed.

(** The chunks in the chunk list when the loop ends, however it ends. *)
Lemma for_chunks_processed : forall tk tr st,
  chunk_list (snd (for_chunks tk tr st)) =
  chunk_list st ++ processed (stop_event st) tr.
Proof.
  intros tk tr; induction tr as [|[|c|e] tr IH]; intros st.
  - cbn. rewrite app_nil_r. reflexivity.
  - step_loop c. rewrite (IH (set_stop_event true st)). reflexivity.
  - cbn [processed]. step_loop c; [|cbn; rewrite app_nil_r; reflexivity].
    destruct (stop_event st) eqn:S; [reflexivity|].
    rewrite (IH (body_state tk c st)). cbn. rewrite S, <- app_assoc. reflexivity.
  - step_loop c. cbn. rewrite app_nil_r. reflexivity.
Qed.

Lemma completes_processed : forall tr stop,
  completes stop tr = true -> processed stop tr = yielded tr.
Proof.
  induction tr as [|[|c|e] tr IH]; intros stop H; cbn in H |- *.
  - reflexivity.
  - apply IH, H.
  - apply andb_prop in H as [H H3]. apply andb_prop in H as [W H2].
    apply negb_true_iff in H2. subst stop. rewrite W, (IH false H3). reflexivity.
  - discriminate.
Qed.

(** ** The whole call

    What follows holds whatever text the [ValidationError] of a refused
    role carries. *)

Section CallFacts.

Variable validation_text : string -> string.

Abbreviation ValidationError := (OpenAIModel.ValidationError validation_text).
Abbreviation finalize := (OpenAIModel.finalize validation_text).
Abbreviation consume := (OpenAIModel.consume validation_text).
Abbreviation call := (OpenAIModel.call validation_text).


Lemma handler_eq : forall (A : Type) tk e st,
  @handler A tk e st =
  (inl (reraised e),
   if tk then set_monitoring (monitoring st ++ [error_occurred e]) st else st).
Proof.
  intros A tk e st. unfold reraised, error_occurred. run_monad.
  destruct tk; cbn; destruct (contains _ _); reflexivity.
Qed.

(** Finalization: the message it returns or the refusal it raises, and the
    state it leaves in both cases. *)
Lemma finalize_eq : forall tk tr st,
  finalize tk tr st =
  (if accepted (cur_role st)
   then inr (mkChatMessage MessageRole_ASSISTANT (join (token_join st)) (Some tr))
   else inl (ValidationError (role_or_assistant (cur_role st))),
   finalize_state tk st).
Proof.
  intros tk tr st. run_monad.
  cbv [set_role set_raw from_dict usage_counts usage_pair completion_finished
       finalize_state accepted OpenAIModel.ChatCompletionMessage].
  destruct st as [stop li lo obs trk mon elog cl tj cr first].
  cbn [cur_role chunk_list token_join tracker monitoring observer stop_event
       last_input_token_count last_output_token_count error_log
       first_token_received set_observer].
  destruct (last_item cl) as [[chs [u|]]|]; destruct tk;
    cbn [cur_role chunk_list token_join tracker monitoring observer stop_event
         last_input_token_count last_output_token_count error_log
         first_token_received set_monitoring set_tracker set_last_token_counts
         set_observer fst snd];
    destruct (role_or_assistant cr =? "assistant")%string;
    cbn; rewrite ?app_nil_r; reflexivity.
Qed.

Lemma call_eq : forall tk id msgs tr st,
  call tk id msgs (inr tr) st =
  match for_chunks tk tr (entry_state tk id msgs st) with
  | (inl e, st') => handler tk e st'
  | (inr _, st') =>
      if accepted (cur_role st')
      then (inr (mkChatMessage MessageRole_ASSISTANT (join (token_join st')) (Some tr)),
            finalize_state tk st')
      else handler tk (ValidationError (role_or_assistant (cur_role st')))
                   (finalize_state tk st')
  end.
Proof.
  intros tk id msgs tr st.
  unfold OpenAIModel.call, OpenAIModel.consume, try_except, bind at 1, entry_state.
  assert (E : prologue tk id msgs (inr tr) st =
              (inr tr, snd (prologue tk id msgs (inr []) st))).
  { unfold prologue. run_monad. destruct tk; reflexivity. }
  rewrite E. unfold bind.
  destruct (for_chunks tk tr _) as [[e|[]] st']; [reflexivity|].
  rewrite (finalize_eq tk tr st').
  destruct (accepted (cur_role st')); reflexivity.
Qed.

Lemma call_request_failed : forall tk id msgs e st,
  exists st',
    call tk id msgs (inl e) st = (inl e, st') /\
    last_input_token_count st' = last_input_token_count st /\
    last_output_token_count st' = last_output_token_count st.
Proof.
  intros tk id msgs e st. run_monad. destruct tk; cbn; eauto.
Qed.

Lemma entry_state_fields : forall tk id msgs st,
  let st1 := entry_state tk id msgs st in
  stop_event st1 = stop_event st /\
  last_input_token_count st1 = last_input_token_count st /\
  last_output_token_count st1 = last_output_token_count st /\
  chunk_list st1 = [] /\
  token_join st1 = [] /\
  cur_role st1 = None /\
  first_token_received st1 = false /\
  tracker st1 = tracker st.
Proof.
  intros tk id msgs st. unfold entry_state. run_monad.
  destruct tk; cbn; repeat split; reflexivity.
Qed.

(** What is known of the loop when it ran to the end of the stream. *)
Lemma entry_loop_done : forall tk id msgs tr st st1,
  for_chunks tk tr (entry_state tk id msgs st) = (inr tt, st1) ->
  chunk_list st1 = yielded tr /\
  token_join st1 = content_deltas (yielded tr) /\
  cur_role st1 = last_content_role (yielded tr) /\
  monitoring st1 = monitoring (entry_state tk id msgs st) /\
  completes (stop_event st) tr = true.
Proof.
  intros tk id msgs tr st st1 L.
  destruct (entry_state_fields tk id msgs st) as (Es & _ & _ & Ec & Ej & Er & _).
  pose proof (for_chunks_done _ _ _ _ L) as (C & J & Mo & _).
  pose proof (for_chunks_role _ _ _ _ L) as R.
  pose proof (for_chunks_returns_completes _ _ _ _ L) as K.
  rewrite Ec in C. rewrite Ej in J. rewrite Er in R. rewrite Es in K.
  cbn [app] in C, J. unfold last_content_role. auto.
Qed.

(** A call that returns: the loop ran to the end, the role was accepted,
    and the message and the state are those of finalization. *)
Lemma call_returned : forall tk id msgs tr st m st',
  call tk id msgs (inr tr) st = (inr m, st') ->
  exists st1,
    for_chunks tk tr (entry_state tk id msgs st) = (inr tt, st1) /\
    accepted (cur_role st1) = true /\
    m = mkChatMessage MessageRole_ASSISTANT (join (token_join st1)) (Some tr) /\
    st' = finalize_state tk st1.
Proof.
  intros tk id msgs tr st m st' H. rewrite call_eq in H.
  destruct (for_chunks tk tr (entry_state tk id msgs st)) as [[e|[]] st1].
  - rewrite handler_eq in H. discriminate.
  - destruct (accepted (cur_role st1)) eqn:A.
    + inversion H; subst. exists st1. auto.
    + rewrite handler_eq in H. discriminate.
Qed.

(** A call whose loop runs to the end of the stream. *)
Lemma call_completed : forall tk id msgs tr st,
  completes (stop_event st) tr = true ->
  exists st1,
    for_chunks tk tr (entry_state tk id msgs st) = (inr tt, st1) /\
    call tk id msgs (inr tr) st =
    if accepted (last_content_role (yielded tr))
    then (inr (mkChatMessage MessageRole_ASSISTANT
                 (join (content_deltas (yielded tr))) (Some tr)),
          finalize_state tk st1)
    else handler tk (ValidationError (role_or_assistant (last_content_role (yielded tr))))
                 (finalize_state tk st1).
Proof.
  intros tk id msgs tr st H.
  destruct (entry_state_fields tk id msgs st) as (Es & _).
  rewrite <- Es in H.
  destruct (for_chunks_completes tk tr _ H) as (st1 & L & _).
  exists st1. split; [exact L|].
  rewrite call_eq, L.
  destruct (entry_loop_done _ _ _ _ _ _ L) as (_ & J & R & _).
  rewrite J, R. reflexivity.
Qed.

Lemma accepted_last_content_role : forall chunks,
  Forall (fun c => accepted (chunk_role c) = true) chunks ->
  accepted (last_content_role chunks) = true.
Proof.
  intros chunks F. unfold last_content_role.
  assert (G : forall r, accepted r = true ->
              accepted (fold_left (fun r c => match chunk_content c with
                                              | Some _ => chunk_role c
                                              | None => r
                                              end) chunks r) = true).
  { induction F as [|c chunks Hc F IH]; intros r Hr; [exact Hr|].
    cbn [fold_left]. apply IH. destruct (chunk_content c); assumption. }
  apply G. reflexivity.
Qed.

(** Whether the loop runs to the end of the stream is told by
    [completes]. *)
Lemma loop_outcome_completes : forall tk id msgs tr st,
  completes (stop_event st) tr =
  match fst (for_chunks tk tr (entry_state tk id msgs st)) with
  | inr _ => true
  | inl _ => false
  end.
Proof.
  intros tk id msgs tr st.
  destruct (entry_state_fields tk id msgs st) as (Es & _). rewrite <- Es.
  destruct (for_chunks tk tr (entry_state tk id msgs st)) as [[e|[]] st1] eqn:L;
    cbn [fst].
  - destruct (completes (stop_event (entry_state tk id msgs st)) tr) eqn:K;
      [|reflexivity].
    destruct (for_chunks_completes tk tr _ K) as (st2 & L2 & _). congruence.
  - eapply for_chunks_returns_completes, L.
Qed.

(** ** Invariants of the loop *)

(** A property kept by the flag being set and by one iteration is kept by
    the loop, however it ends. *)
Lemma for_chunks_preserves : forall (P : State -> Prop) tk,
  (forall st, P st -> P (set_stop_event true st)) ->
  (forall c st, well_formed c = true -> P st -> P (body_state tk c st)) ->
  forall tr st, P st -> P (snd (for_chunks tk tr st)).
Proof.
  intros P tk Hset Hbody tr; induction tr as [|[|c|e] tr IH]; intros st HP.
  - exact HP.
  - step_loop c. apply IH, Hset, HP.
  - step_loop c; [|exact HP].
    destruct (stop_event st); [apply Hbody; assumption|].
    apply IH, Hbody; assumption.
  - step_loop c. exact HP.
Qed.

Lemma for_chunks_all_yield : forall tk chunks st,
  stop_event st = false ->
  Forall (fun c => well_formed c = true) chunks ->
  exists st', for_chunks tk (map Yield chunks) st = (inr tt, st').
Proof.
  intros tk chunks; induction chunks as [|c chunks IH]; intros st S F.
  - exists st. reflexivity.
  - inversion F as [|? ? W F']; subst. cbn [map].
    rewrite (for_chunks_yield tk c _ st W), S.
    apply IH; [exact S | exact F'].
Qed.

Lemma yielded_map_Yield : forall chunks, yielded (map Yield chunks) = chunks.
Proof.
  induction chunks as [|c chunks IH]; [reflexivity|].
  cbn. rewrite IH. reflexivity.
Qed.

Lemma content_deltas_all : forall chunks ds,
  map chunk_content chunks = map Some ds -> content_deltas chunks = ds.
Proof.
  induction chunks as [|c chunks IH]; intros [|d ds] H; try discriminate.
  - reflexivity.
  - cbn [map] in H. inversion H as [[Hc Hrest]].
    unfold content_deltas. cbn [flat_map]. rewrite Hc. cbn [opt_list app].
    f_equal. apply IH, Hrest.
Qed.

Lemma content_well_formed : forall c d, chunk_content c = Some d -> well_formed c = true.
Proof.
  intros [[|ch chs] us] d H; [discriminate | reflexivity].
Qed.

(** ** Content *)

(** C2.  When every chunk of the stream carries a content delta, the
    stream ends without a fault and the stop event stays clear, the message
    the call returns has as content the concatenation of those deltas in
    the order the chunks arrived: [ds] lists the deltas chunk by chunk, so
    none is dropped, repeated or moved.  The call does return a message
    when no chunk carries a role tag that the message constructor
    refuses. *)
Theorem content_is_concatenation : forall tk id msgs chunks ds st,
  stop_event st = false ->
  map chunk_content chunks = map Some ds ->
  (forall m st',
     call tk id msgs (inr (map Yield chunks)) st = (inr m, st') ->
     msg_content m = join ds) /\
  (Forall (fun c => accepted (chunk_role c) = true) chunks ->
   exists m st',
     call tk id msgs (inr (map Yield chunks)) st = (inr m, st') /\
     msg_content m = join ds).
Proof.
  intros tk id msgs chunks ds st S H.
  assert (F : Forall (fun c => well_formed c = true) chunks).
  { clear S. revert ds H. induction chunks as [|c chunks IH]; intros [|d ds] H;
      try discriminate; constructor.
    - cbn in H. inversion H. eapply content_well_formed; eassumption.
    - cbn in H. inversion H. eapply IH; eassumption. }
  split.
  - intros m st' R.
    destruct (call_returned _ _ _ _ _ _ _ R) as (st1 & L & _ & -> & _).
    destruct (entry_loop_done _ _ _ _ _ _ L) as (_ & J & _).
    cbn [msg_content]. rewrite J, yielded_map_Yield.
    rewrite (content_deltas_all chunks ds H). reflexivity.
  - intros A.
    destruct (entry_state_fields tk id msgs st) as (Es & _).
    destruct (for_chunks_all_yield tk chunks (entry_state tk id msgs st))
      as [st1 L]; [congruence | exact F |].
    destruct (entry_loop_done _ _ _ _ _ _ L) as (_ & J & R & _).
    rewrite call_eq, L, R, yielded_map_Yield, (accepted_last_content_role chunks A).
    eexists. eexists. split; [reflexivity|]. cbn [msg_content].
    rewrite J, yielded_map_Yield, (content_deltas_all chunks ds H). reflexivity.
Qed.

(** ** Faults *)

(** C3.  When the [try] block raises [e] (the stream raised it, a chunk
    had no choice, the stop event was seen, or the message constructor
    refused the role), the call raises
    [ValueError("Token limit exceeded: " + str(e))] if [str(e)] contains
    ["context_length_exceeded"], and [e] itself otherwise. *)
Theorem fault_classification : forall tk id msgs tr st e st1,
  consume tk tr (entry_state tk id msgs st) = (inl e, st1) ->
  fst (call tk id msgs (inr tr) st) =
  inl (if contains "context_length_exceeded" (exn_msg e)
       then mkExn "ValueError" ("Token limit exceeded: " ++ exn_msg e)%string
       else e).
Proof.
  intros tk id msgs tr st e st1 H.
  rewrite call_eq. unfold OpenAIModel.consume, bind in H.
  destruct (for_chunks tk tr (entry_state tk id msgs st)) as [[e0|[]] st2].
  - inversion H; subst. rewrite handler_eq. reflexivity.
  - rewrite finalize_eq in H.
    destruct (accepted (cur_role st2)); [discriminate|].
    inversion H; subst. rewrite handler_eq. reflexivity.
Qed.

(** C10, as the code has it.  The two counts are written when the loop
    has run to the end of the stream, before the message is built.  A call
    that ends by raising before that -- the request could not be
    submitted, the stream raised, a chunk had no choice, or the stop event
    interrupted the loop -- leaves [last_input_token_count] and
    [last_output_token_count] as they were before the call. *)
Theorem fault_keeps_token_counts : forall tk id msgs request st e st',
  call tk id msgs request st = (inl e, st') ->
  (forall tr, request = inr tr -> completes (stop_event st) tr = false) ->
  last_input_token_count st' = last_input_token_count st /\
  last_output_token_count st' = last_output_token_count st.
Proof.
  intros tk id msgs [e0|tr] st e st' H N.
  - destruct (call_request_failed tk id msgs e0 st) as (st2 & E & Hi & Ho).
    rewrite E in H. inversion H; subst. auto.
  - specialize (N tr eq_refl). rewrite call_eq in H.
    destruct (entry_state_fields tk id msgs st) as (_ & Ei & Eo & _).
    pose proof (for_chunks_frame tk tr (entry_state tk id msgs st)) as F.
    cbn zeta in F. destruct F as (Fi & Fo & _).
    destruct (for_chunks tk tr (entry_state tk id msgs st)) as [[e1|[]] st2] eqn:L;
      cbn [snd] in Fi, Fo.
    + rewrite handler_eq in H. inversion H; subst.
      destruct tk; cbn; split; congruence.
    + destruct (entry_loop_done _ _ _ _ _ _ L) as (_ & _ & _ & _ & K). congruence.
Qed.

(** ** The connectivity probe *)

(** C8.  [check_connectivity] always returns a boolean and never raises:
    [True] when the request went through, [False], after logging the
    failure, when preparing or sending it raised. *)
Theorem check_connectivity_never_raises : forall request st,
  check_connectivity request st =
  match request with
  | inr _ => (inr true, st)
  | inl e => (inr false,
              set_error_log
                (error_log st ++ [("Connection test failed: " ++ exn_msg e)%string]) st)
  end.
Proof.
  intros [e|[]] st; reflexivity.
Qed.

(** ** Token usage *)

(** C4.  When the call returns, every chunk of the stream went through the
    loop, and the counts stored on the model object and handed to the
    tracker are those of the last chunk's usage summary: its prompt tokens
    and its completion tokens, or its total tokens when it has no
    completion-token field.  When the last chunk has no usage summary, or
    the stream yielded no chunk, both counts are zero.  On the three chunks
    "Hel", "lo" and usage (5, 2) the call returns "Hello" with counts 5 and
    2. *)
Theorem usage_extraction :
  (forall tk id msgs tr st m st',
     call tk id msgs (inr tr) st = (inr m, st') ->
     chunk_list st' = yielded tr /\
     (forall c u,
        last_item (yielded tr) = Some c -> usage c = Some u ->
        let output := match completion_tokens u with
                      | Some k => k
                      | None => total_tokens u
                      end in
        last_input_token_count st' = Some (prompt_tokens u) /\
        last_output_token_count st' = Some output /\
        (tk = true ->
         last_item (tracker st') = Some (RecordCompletion (prompt_tokens u) output))) /\
     ((yielded tr = [] \/
       exists c, last_item (yielded tr) = Some c /\ usage c = None) ->
      last_input_token_count st' = Some 0%Z /\
      last_output_token_count st' = Some 0%Z /\
      (tk = true -> last_item (tracker st') = Some (RecordCompletion 0 0)))) /\
  (exists st',
     call true "gpt" Sample.messages (inr (map Yield Sample.hello)) Sample.fresh
     = (inr (mkChatMessage "assistant" "Hello" (Some (map Yield Sample.hello))), st') /\
     last_input_token_count st' = Some 5%Z /\
     last_output_token_count st' = Some 2%Z).
Proof.
  split.
  - intros tk id msgs tr st m st' H.
    destruct (call_returned _ _ _ _ _ _ _ H) as (st2 & L & _ & -> & ->).
    destruct (entry_loop_done _ _ _ _ _ _ L) as (C & _).
    cbn. rewrite C. unfold usage_counts.
    split; [reflexivity|]. split.
    + intros c u Hc Hu. rewrite Hc, Hu. cbn. repeat split.
      intros ->. apply last_item_snoc.
    + intros [Hnil | (c & Hc & Hu)].
      * rewrite Hnil. cbn. repeat split. intros ->. apply last_item_snoc.
      * rewrite Hc, Hu. cbn. repeat split. intros ->. apply last_item_snoc.
  - eexists. vm_compute. repeat split.
Qed.

(** ** Cancellation *)

Lemma call_chunk_list : forall tk id msgs tr st,
  chunk_list (snd (call tk id msgs (inr tr) st)) =
  chunk_list (snd (for_chunks tk tr (entry_state tk id msgs st))).
Proof.
  intros tk id msgs tr st. rewrite call_eq.
  destruct (for_chunks tk tr (entry_state tk id msgs st)) as [[e|[]] st1].
  - rewrite handler_eq. destruct tk; reflexivity.
  - destruct (accepted (cur_role st1)); [reflexivity|].
    rewrite handler_eq. destruct tk; reflexivity.
Qed.

(** With the flag set, the loop gets through one chunk at most. *)
Lemma for_chunks_stopped : forall tk tr st,
  stop_event st = true ->
  List.length (chunk_list (snd (for_chunks tk tr st))) <= List.length (chunk_list st) + 1.
Proof.
  intros tk tr; induction tr as [|[|c|e] tr IH]; intros st S.
  - cbn. lia.
  - step_loop c. apply (IH (set_stop_event true st)). reflexivity.
  - step_loop c; [|cbn; lia].
    rewrite S. cbn. rewrite List.length_app. cbn. lia.
  - step_loop c. cbn. lia.
Qed.

Lemma for_chunks_stop_bound : forall tk pre post st,
  stop_event st = true \/ In SetStop pre ->
  List.length (chunk_list (snd (for_chunks tk (pre ++ post) st)))
  <= List.length (chunk_list st) + List.length (yielded pre) + 1.
Proof.
  intros tk pre post; induction pre as [|[|c|e] pre IH]; intros st H.
  - destruct H as [S|[]]. cbn [app yielded List.length].
    pose proof (for_chunks_stopped tk post st S). lia.
  - cbn [app yielded]. step_loop c.
    apply (IH (set_stop_event true st)). left; reflexivity.
  - cbn [app yielded List.length]. step_loop c; [|cbn; lia].
    destruct (stop_event st) eqn:S.
    + cbn. rewrite List.length_app. cbn. lia.
    + assert (H' : stop_event (body_state tk c st) = true \/ In SetStop pre).
      { destruct H as [H|[H|H]]; [discriminate | discriminate | right; exact H]. }
      pose proof (IH (body_state tk c st) H') as B.
      cbn [body_state chunk_list] in B. rewrite List.length_app in B. cbn in B. lia.
  - cbn [app]. step_loop c. cbn. lia.
Qed.

(** C9.  Once the stop event is set -- before the call, or by one of the
    events [pre] that happen while the loop runs -- the loop ends within
    one iteration: however the stream continues, the chunks that went
    through the loop body are at most those yielded in [pre] and one
    more. *)
Theorem stop_within_one_iteration : forall tk id msgs pre post st,
  stop_event st = true \/ In SetStop pre ->
  List.length (chunk_list (snd (call tk id msgs (inr (pre ++ post)) st)))
  <= List.length (yielded pre) + 1.
Proof.
  intros tk id msgs pre post st H.
  rewrite call_chunk_list.
  destruct (entry_state_fields tk id msgs st) as (Es & _ & _ & Ec & _).
  pose proof (for_chunks_stop_bound tk pre post (entry_state tk id msgs st)) as B.
  rewrite Es, Ec in B. cbn [List.length] in B. apply B, H.
Qed.

(** The loop on a stream whose next chunk arrives after the flag is set. *)
Lemma for_chunks_interrupts : forall tk pre c post st,
  forallb deliverable pre = true ->
  well_formed c = true ->
  stop_event st = true \/ In SetStop pre ->
  exists st',
    for_chunks tk (pre ++ Yield c :: post) st = (inl stop_error, st') /\
    monitoring st' = (monitoring st ++ if tk then [model_stopped] else []).
Proof.
  intros tk pre c post; induction pre as [|[|c'|e] pre IH]; intros st D W H.
  - destruct H as [S|[]]. cbn [app].
    rewrite (for_chunks_yield tk c post st W), S.
    eexists; split; [reflexivity|]. cbn. rewrite S. reflexivity.
  - cbn [app]. rewrite for_chunks_set_stop.
    destruct (IH (set_stop_event true st)) as (st' & E & Mo);
      [exact D | exact W | left; reflexivity |].
    exists st'. split; [exact E | exact Mo].
  - cbn [forallb deliverable] in D. apply andb_prop in D as [W' D].
    cbn [app]. rewrite (for_chunks_yield tk c' _ st W').
    destruct (stop_event st) eqn:S.
    + eexists; split; [reflexivity|]. cbn. rewrite S. reflexivity.
    + destruct (IH (body_state tk c' st)) as (st' & E & Mo);
        [exact D | exact W | |].
      { destruct H as [H|[H|H]]; [discriminate | discriminate | right; exact H]. }
      exists st'. split; [exact E|].
      rewrite Mo. cbn. rewrite S. cbn. rewrite app_nil_r. reflexivity.
  - discriminate.
Qed.

(** C1, as the code has it.  The stop event is polled after each chunk has
    been processed.  If it is set -- before the call or while the loop
    runs -- and a further chunk with at least one choice is then yielded,
    no fault having come from the stream before, the call raises
    [RuntimeError("Model is interrupted by stop event")] and returns no
    message. *)
Theorem stop_event_interrupts : forall tk id msgs pre c post st,
  forallb deliverable pre = true ->
  well_formed c = true ->
  stop_event st = true \/ In SetStop pre ->
  fst (call tk id msgs (inr (pre ++ Yield c :: post)) st) =
  inl (mkExn "RuntimeError" "Model is interrupted by stop event").
Proof.
  intros tk id msgs pre c post st D W H.
  destruct (entry_state_fields tk id msgs st) as (Es & _).
  destruct (for_chunks_interrupts tk pre c post (entry_state tk id msgs st) D W)
    as (st' & E & _); [rewrite Es; exact H|].
  rewrite call_eq, E, handler_eq. reflexivity.
Qed.

(** ** First-token latency *)

Lemma count_first_token_app : forall l1 l2,
  count_first_token (l1 ++ l2) = count_first_token l1 + count_first_token l2.
Proof.
  induction l1 as [|[| |] l1 IH]; intros l2; cbn; rewrite ?IH; reflexivity.
Qed.

Lemma has_delta_false_content : forall c,
  has_delta c = false -> chunk_content c = None.
Proof.
  intros c H. unfold has_delta in H. apply orb_false_elim in H as [_ H].
  destruct (chunk_content c); [discriminate | reflexivity].
Qed.

Lemma first_token_inv_body : forall base c st,
  first_token_inv base st -> first_token_inv base (body_state true c st).
Proof.
  intros base c st (rest & Ht & Hc & Hf).
  unfold first_token_inv. cbn [body_state tracker chunk_list first_token_received].
  rewrite existsb_app. cbn [existsb]. rewrite orb_false_r.
  rewrite Ht, Hf. unfold body_tracker.
  set (toks := match chunk_content c with
               | Some t => [RecordToken t]
               | None => []
               end).
  assert (Z0 : count_first_token toks = 0)
    by (unfold toks; destruct (chunk_content c); reflexivity).
  destruct (existsb has_delta (chunk_list st)); cbn [negb andb orb].
  - exists (rest ++ toks).
    rewrite <- app_assoc. cbn [app]. repeat split.
    rewrite count_first_token_app, Hc, Z0. reflexivity.
  - destruct (has_delta c) eqn:D.
    + exists toks. rewrite app_nil_r. auto.
    + exists []. unfold toks.
      rewrite (has_delta_false_content c D), !app_nil_r. auto.
Qed.

Lemma first_token_inv_loop : forall base tr st,
  first_token_inv base st ->
  first_token_inv base (snd (for_chunks true tr st)).
Proof.
  intros base. apply (for_chunks_preserves (first_token_inv base) true).
  - intros st H. exact H.
  - intros c st _. apply first_token_inv_body.
Qed.

(** C5, as the code has it.  With a tracker present, the tracker calls of
    one invocation are [record_first_token], made if and only if some
    chunk that went through the loop carried a delta of either kind that is
    not [None], followed by calls none of which is [record_first_token]:
    the latency is recorded at most once, when the first such delta
    arrives and before any token is counted, and not at all when none
    arrives. *)
Theorem first_token_recorded_at_most_once : forall id msgs tr st,
  exists rest,
    count_first_token rest = 0 /\
    tracker (snd (call true id msgs (inr tr) st)) =
    tracker st ++
    if existsb has_delta (chunk_list (snd (call true id msgs (inr tr) st)))
    then RecordFirstToken :: rest
    else rest.
Proof.
  intros id msgs tr st.
  destruct (entry_state_fields true id msgs st)
    as (_ & _ & _ & Ec & _ & _ & Ef & Et).
  assert (I : first_token_inv (tracker st) (entry_state true id msgs st)).
  { exists []. rewrite Ec, Ef, Et. cbn. rewrite app_nil_r. auto. }
  apply (first_token_inv_loop _ tr) in I.
  rewrite call_eq.
  destruct (for_chunks true tr (entry_state true id msgs st)) as [[e|[]] st1].
  - destruct I as (rest & Ht & Hc & _). cbn [snd] in Ht.
    rewrite handler_eq. cbn [snd set_monitoring tracker chunk_list].
    rewrite Ht.
    destruct (existsb has_delta (chunk_list st1)).
    + exists rest. auto.
    + exists []. auto.
  - destruct I as (rest & Ht & Hc & _). cbn [snd] in Ht.
    assert (G : exists rest0,
              count_first_token rest0 = 0 /\
              tracker (finalize_state true st1) =
              tracker st ++
              (if existsb has_delta (chunk_list (finalize_state true st1))
               then RecordFirstToken :: rest0 else rest0)).
    { cbn [finalize_state tracker chunk_list]. rewrite Ht, <- app_assoc.
      destruct (existsb has_delta (chunk_list st1)).
      - eexists. split; [|cbn [app]; reflexivity].
        rewrite count_first_token_app, Hc. reflexivity.
      - eexists. split; [|cbn [app]; reflexivity]. reflexivity. }
    destruct (accepted (cur_role st1)); [exact G|].
    rewrite handler_eq. exact G.
Qed.

(** ** Role *)

Lemma no_role_tag : forall chunks,
  Forall (fun c => chunk_role c = None) chunks ->
  last_content_role chunks = None.
Proof.
  intros chunks F. unfold last_content_role.
  induction F as [|c chunks Hc F IH]; [reflexivity|].
  cbn [fold_left]. rewrite Hc. destruct (chunk_content c); exact IH.
Qed.

(** C6, as the code has it.  A message the call returns has the assistant
    role, and the role handed to the message constructor for it was
    "assistant": the constructor takes no other, and line 135 sets the
    assistant role on the message.  When no chunk of the stream carries a
    role tag, the local [role] is still [None] when the loop ends, the
    constructor is handed the default "assistant", and the call returns
    such a message whenever the loop gets through the stream. *)
Theorem returned_role_is_assistant : forall tk id msgs tr st,
  (forall m st',
     call tk id msgs (inr tr) st = (inr m, st') ->
     msg_role m = "assistant" /\
     role_or_assistant (cur_role st') = "assistant") /\
  (completes (stop_event st) tr = true ->
   Forall (fun c => chunk_role c = None) (yielded tr) ->
   exists m st',
     call tk id msgs (inr tr) st = (inr m, st') /\
     msg_role m = "assistant" /\
     cur_role st' = None /\
     role_or_assistant (cur_role st') = "assistant").
Proof.
  intros tk id msgs tr st. split.
  - intros m st' H.
    destruct (call_returned _ _ _ _ _ _ _ H) as (st1 & _ & A & -> & ->).
    split; [reflexivity|]. cbn [finalize_state cur_role].
    apply String.eqb_eq, A.
  - intros K F.
    destruct (call_completed tk id msgs tr st K) as (st1 & L & E).
    destruct (entry_loop_done _ _ _ _ _ _ L) as (_ & _ & R & _).
    rewrite (no_role_tag _ F) in E, R. cbn in E.
    eexists. eexists. split; [exact E|].
    cbn [msg_role finalize_state cur_role]. rewrite R. auto.
Qed.

(** ** Monitoring events *)

Lemma entry_state_monitoring : forall tk id msgs st,
  monitoring (entry_state tk id msgs st) =
  monitoring st ++ if tk then [completion_started; span_attributes id msgs] else [].
Proof.
  intros tk id msgs st. unfold entry_state, completion_started, span_attributes.
  run_monad. destruct tk; cbn; rewrite <- ?app_assoc, ?app_nil_r; reflexivity.
Qed.

(** The loop adds one event at most: "model_stopped", when it ends on the
    stop event. *)
Lemma for_chunks_monitoring : forall tk tr st,
  monitoring (snd (for_chunks tk tr st)) = monitoring st \/
  (tk = true /\
   fst (for_chunks tk tr st) = inl stop_error /\
   monitoring (snd (for_chunks tk tr st)) = monitoring st ++ [model_stopped]).
Proof.
  intros tk tr; induction tr as [|[|c|e] tr IH]; intros st.
  - left; reflexivity.
  - step_loop c. apply (IH (set_stop_event true st)).
  - step_loop c; [|left; reflexivity].
    destruct (stop_event st) eqn:S.
    + cbn [snd fst body_state monitoring]. rewrite S.
      destruct tk; cbn [andb]; [right; auto | left; apply app_nil_r].
    + destruct (IH (body_state tk c st)) as [H|(H1 & H2 & H3)].
      * left. rewrite H. cbn. rewrite S. apply app_nil_r.
      * right. rewrite H3. cbn. rewrite S. cbn. rewrite app_nil_r. auto.
  - step_loop c. left; reflexivity.
Qed.

(** C7, as the code has it.  Events are emitted only when the decorator
    supplied a token tracker; without one the call emits nothing.  With
    one: "completion_started" and the span attributes come first; if the
    request could not be submitted nothing follows; if the call returns,
    "completion_finished" follows and closes the log; if the [try] block
    raised [e], "error_occurred" with the type and message of [e] comes
    last.  When the loop was left before the end of the stream it is
    preceded by "model_stopped" with reason "stop_event_set" if the stop
    event ended the loop, and by nothing otherwise; when the loop had run
    to the end, [e] is the refusal of the role and "completion_finished"
    has been emitted before it. *)
Theorem monitoring_events : forall id msgs st,
  (forall request,
     monitoring (snd (call false id msgs request st)) = monitoring st) /\
  (forall request, exists rest,
     monitoring (snd (call true id msgs request st)) =
     monitoring st ++ completion_started :: span_attributes id msgs :: rest /\
     match request, fst (call true id msgs request st) with
     | inl e, r => rest = [] /\ r = inl e
     | inr tr, inr m => rest = [completion_finished (msg_content m) (yielded tr)]
     | inr tr, inl e' =>
         exists e before,
           e' = reraised e /\
           rest = before ++ [error_occurred e] /\
           (completes (stop_event st) tr = false ->
            before = [] \/ e = stop_error /\ before = [model_stopped]) /\
           (completes (stop_event st) tr = true ->
            before = [completion_finished (join (content_deltas (yielded tr)))
                                          (yielded tr)])
     end) /\
  (forall pre c post,
     forallb deliverable pre = true ->
     well_formed c = true ->
     stop_event st = true \/ In SetStop pre ->
     monitoring (snd (call true id msgs (inr (pre ++ Yield c :: post)) st)) =
     monitoring st ++
     [completion_started; span_attributes id msgs; model_stopped;
      error_occurred stop_error]).
Proof.
  intros id msgs st. split; [|split].
  - intros [e|tr].
    + reflexivity.
    + rewrite call_eq.
      destruct (for_chunks_monitoring false tr (entry_state false id msgs st))
        as [H|(H & _)]; [|discriminate].
      rewrite entry_state_monitoring, app_nil_r in H.
      destruct (for_chunks false tr (entry_state false id msgs st)) as [[e|[]] st1];
        cbn [snd] in H.
      * rewrite handler_eq. exact H.
      * destruct (accepted (cur_role st1)); [|rewrite handler_eq];
          cbn; rewrite app_nil_r; exact H.
  - intros [e|tr].
    + exists []. split; [|split; reflexivity].
      unfold completion_started, span_attributes. run_monad. cbn.
      rewrite <- app_assoc. reflexivity.
    + rewrite call_eq.
      pose proof (for_chunks_monitoring true tr (entry_state true id msgs st)) as Mo.
      rewrite entry_state_monitoring in Mo.
      destruct (for_chunks true tr (entry_state true id msgs st))
        as [[e|[]] st1] eqn:L; cbn [fst snd] in Mo.
      * assert (K : completes (stop_event st) tr = false).
        { destruct (completes (stop_event st) tr) eqn:K; [|reflexivity].
          destruct (entry_state_fields true id msgs st) as (Es & _).
          rewrite <- Es in K.
          destruct (for_chunks_completes true tr _ K) as (st2 & L2 & _). congruence. }
        rewrite handler_eq. cbn [fst snd set_monitoring monitoring].
        destruct Mo as [H|(_ & H1 & H2)].
        -- exists [error_occurred e]. rewrite H, <- app_assoc. split; [reflexivity|].
           exists e, []. repeat split; [auto | congruence].
        -- inversion H1; subst.
           exists [model_stopped; error_occurred stop_error].
           rewrite H2, <- !app_assoc. split; [reflexivity|].
           exists stop_error, [model_stopped]. repeat split; [auto | congruence].
      * destruct Mo as [H|(_ & H1 & _)]; [|discriminate].
        destruct (entry_loop_done _ _ _ _ _ _ L) as (C & T & _ & _ & K).
        destruct (accepted (cur_role st1)).
        -- cbn [fst snd monitoring msg_content finalize_state].
           rewrite H, C, T, <- app_assoc. eexists. split; reflexivity.
        -- rewrite handler_eq. cbn [fst snd set_monitoring monitoring finalize_state].
           rewrite H, C, T, <- !app_assoc. eexists. split; [reflexivity|].
           eexists. eexists. split; [reflexivity|]. split; [reflexivity|].
           split; [congruence | reflexivity].
  - intros pre c post D W H.
    destruct (entry_state_fields true id msgs st) as (Es & _).
    destruct (for_chunks_interrupts true pre c post (entry_state true id msgs st) D W)
      as (st' & E & Mo); [rewrite Es; exact H|].
    rewrite call_eq, E, handler_eq. cbn [snd set_monitoring monitoring].
    rewrite Mo, entry_state_monitoring, <- !app_assoc. reflexivity.
Qed.

(** * More of [__call__] *)

(** ** How the call ends *)

(** X1.  The call returns a message exactly when the stream never raises,
    every chunk it yields has at least one choice, no chunk is yielded once
    the stop event is set (the flag being set after the last chunk does no
    harm), and the role tag of the last chunk that carried content is one
    the message constructor takes: none, the empty string or
    "assistant". *)
Theorem call_returns_iff : forall tk id msgs tr st,
  (exists m st', call tk id msgs (inr tr) st = (inr m, st')) <->
  completes (stop_event st) tr = true /\
  accepted (last_content_role (yielded tr)) = true.
Proof.
  intros tk id msgs tr st. split.
  - intros (m & st' & H).
    destruct (call_returned _ _ _ _ _ _ _ H) as (st1 & L & A & _).
    destruct (entry_loop_done _ _ _ _ _ _ L) as (_ & _ & R & _ & K).
    rewrite R in A. auto.
  - intros [K A].
    destruct (call_completed tk id msgs tr st K) as (st1 & _ & E).
    rewrite A in E. eauto.
Qed.

(** X2.  When the call returns, the content of the message is the
    concatenation, in arrival order, of the content deltas of all the
    chunks of the stream; chunks that carry only a reasoning delta, only a
    usage summary or nothing add nothing to it.  The message's [raw] field
    is the stream that was consumed. *)
Theorem returned_content_skips_reasoning : forall tk id msgs tr st m st',
  call tk id msgs (inr tr) st = (inr m, st') ->
  msg_content m = join (content_deltas (yielded tr)) /\
  msg_raw m = Some tr.
Proof.
  intros tk id msgs tr st m st' H.
  destruct (call_returned _ _ _ _ _ _ _ H) as (st1 & L & _ & -> & _).
  destruct (entry_loop_done _ _ _ _ _ _ L) as (_ & T & _).
  cbn. rewrite T. auto.
Qed.

Lemma for_chunks_outcome : forall tk1 tk2 tr st1 st2,
  stop_event st1 = stop_event st2 ->
  fst (for_chunks tk1 tr st1) = fst (for_chunks tk2 tr st2).
Proof.
  intros tk1 tk2 tr; induction tr as [|[|c|e] tr IH]; intros st1 st2 S.
  - reflexivity.
  - rewrite !for_chunks_set_stop. apply IH. reflexivity.
  - destruct (well_formed c) eqn:W.
    + rewrite (for_chunks_yield tk1 c tr st1 W), (for_chunks_yield tk2 c tr st2 W).
      rewrite <- S. destruct (stop_event st1) eqn:S1; [reflexivity|].
      apply IH. cbn. congruence.
    + rewrite (for_chunks_yield_malformed tk1 c tr st1 W),
              (for_chunks_yield_malformed tk2 c tr st2 W). reflexivity.
  - reflexivity.
Qed.

(** X3.  What a call returns or raises depends on the stream and on the
    stop event alone: whether a token tracker is present, and whatever
    earlier calls left on the model object, on the observer or in the
    monitoring log, make no difference.  Every call starts from empty
    buffers. *)
Theorem call_result_independent_of_history :
  forall tk1 tk2 id1 id2 msgs1 msgs2 tr st1 st2,
    stop_event st1 = stop_event st2 ->
    fst (call tk1 id1 msgs1 (inr tr) st1) = fst (call tk2 id2 msgs2 (inr tr) st2).
Proof.
  intros tk1 tk2 id1 id2 msgs1 msgs2 tr st1 st2 S.
  destruct (entry_state_fields tk1 id1 msgs1 st1) as (Es1 & _ & _ & _ & Ej1 & _).
  destruct (entry_state_fields tk2 id2 msgs2 st2) as (Es2 & _ & _ & _ & Ej2 & _).
  pose proof (for_chunks_outcome tk1 tk2 tr
                (entry_state tk1 id1 msgs1 st1) (entry_state tk2 id2 msgs2 st2)) as O.
  rewrite !call_eq.
  destruct (for_chunks tk1 tr (entry_state tk1 id1 msgs1 st1)) as [[e1|[]] s1] eqn:L1;
    destruct (for_chunks tk2 tr (entry_state tk2 id2 msgs2 st2)) as [[e2|[]] s2] eqn:L2;
    cbn [fst] in O; specialize (O ltac:(congruence)); try discriminate.
  - inversion O; subst. rewrite !handler_eq. reflexivity.
  - destruct (entry_loop_done _ _ _ _ _ _ L1) as (_ & T1 & R1 & _).
    destruct (entry_loop_done _ _ _ _ _ _ L2) as (_ & T2 & R2 & _).
    rewrite R1, R2, T1, T2.
    destruct (accepted (last_content_role (yielded tr))); [reflexivity|].
    rewrite !handler_eq. reflexivity.
Qed.

(** X4.  After a part of the stream the loop got through, an exception
    raised by the stream is the one the call raises (turned into the
    token-limit [ValueError] when its text has the marker), also when the
    stop event was set in the meantime: the flag is only looked at after a
    chunk, so the stream's own fault comes first. *)
Theorem stream_fault_comes_first : forall tk id msgs pre e post st,
  completes (stop_event st) pre = true ->
  fst (call tk id msgs (inr (pre ++ Raise e :: post)) st) =
  inl (if contains "context_length_exceeded" (exn_msg e)
       then mkExn "ValueError" ("Token limit exceeded: " ++ exn_msg e)%string
       else e).
Proof.
  intros tk id msgs pre e post st H.
  destruct (entry_state_fields tk id msgs st) as (Es & _).
  rewrite <- Es in H.
  destruct (for_chunks_completes tk pre _ H) as (st1 & L & _).
  rewrite call_eq, for_chunks_app, L, for_chunks_raise, handler_eq.
  reflexivity.
Qed.

(** X5.  A chunk with an empty [choices] list, coming after a part of the
    stream the loop got through, makes the call raise [IndexError] -- also
    when the stop event is set and also when that chunk carries the usage
    summary, which is then never read. *)
Theorem chunk_without_choices_raises : forall tk id msgs pre c post st,
  completes (stop_event st) pre = true ->
  choices c = [] ->
  fst (call tk id msgs (inr (pre ++ Yield c :: post)) st)
  = inl (mkExn "IndexError" "list index out of range").
Proof.
  intros tk id msgs pre c post st H C.
  destruct (entry_state_fields tk id msgs st) as (Es & _).
  rewrite <- Es in H.
  destruct (for_chunks_completes tk pre _ H) as (st1 & L & _).
  assert (W : well_formed c = false) by (unfold well_formed; rewrite C; reflexivity).
  rewrite call_eq, for_chunks_app, L, (for_chunks_yield_malformed tk c post st1 W),
          handler_eq.
  reflexivity.
Qed.

(** X6.  An exception raised while the request is prepared or submitted
    leaves the call as it is, outside the [try] block: it is not turned
    into the token-limit [ValueError] even when its text has the marker, no
    "error_occurred" event is emitted, and nothing but the two opening
    monitoring calls has happened.  The same exception raised by the stream
    is turned into the [ValueError]. *)
Theorem request_fault_not_classified : forall tk id msgs e post st,
  contains "context_length_exceeded" (exn_msg e) = true ->
  call tk id msgs (inl e) st =
  (inl e,
   if tk
   then set_monitoring (monitoring st ++ [completion_started; span_attributes id msgs]) st
   else st) /\
  fst (call tk id msgs (inr (Raise e :: post)) st)
  = inl (mkExn "ValueError" ("Token limit exceeded: " ++ exn_msg e)%string).
Proof.
  intros tk id msgs e post st H. split.
  - unfold completion_started, span_attributes. run_monad.
    destruct tk; cbn; [|destruct st; reflexivity].
    rewrite <- app_assoc. reflexivity.
  - rewrite call_eq, for_chunks_raise, handler_eq. unfold reraised.
    rewrite H. reflexivity.
Qed.

(** ** What the collaborators see *)

Lemma flat_map_snoc : forall (A B : Type) (f : A -> list B) l x,
  flat_map f (l ++ [x]) = flat_map f l ++ f x.
Proof.
  intros A B f l x. rewrite flat_map_app. cbn. rewrite app_nil_r. reflexivity.
Qed.

Lemma for_chunks_observer : forall tk base tr st,
  observer st = base ++ flat_map body_observer (chunk_list st) ->
  let st' := snd (for_chunks tk tr st) in
  observer st' = base ++ flat_map body_observer (chunk_list st').
Proof.
  intros tk base tr st H. cbn zeta.
  apply (for_chunks_preserves
           (fun s => observer s = base ++ flat_map body_observer (chunk_list s)) tk).
  - intros s Hs. exact Hs.
  - intros c s _ Hs. cbn [body_state observer chunk_list].
    rewrite flat_map_snoc, Hs, app_assoc. reflexivity.
  - exact H.
Qed.

Lemma call_observer : forall tk id msgs tr st,
  observer (snd (call tk id msgs (inr tr) st)) =
  observer st ++
  SetCurrentMode MODEL_OUTPUT_THINKING ::
  flat_map body_observer (processed (stop_event st) tr) ++
  if completes (stop_event st) tr then [FlushRemainingTokens] else [].
Proof.
  intros tk id msgs tr st.
  assert (E : observer (entry_state tk id msgs st) =
              (observer st ++ [SetCurrentMode MODEL_OUTPUT_THINKING]) ++
              flat_map body_observer (chunk_list (entry_state tk id msgs st))).
  { unfold entry_state. run_monad. destruct tk; cbn; rewrite app_nil_r; reflexivity. }
  apply (for_chunks_observer tk _ tr) in E. cbn zeta in E.
  destruct (entry_state_fields tk id msgs st) as (Es & _ & _ & Ec & _).
  rewrite for_chunks_processed, Ec, Es in E. cbn [app] in E.
  rewrite (loop_outcome_completes tk id msgs tr st), call_eq.
  destruct (for_chunks tk tr (entry_state tk id msgs st)) as [[e|[]] st1];
    cbn [fst snd] in E |- *.
  - rewrite handler_eq.
    destruct tk; cbn [snd set_monitoring observer];
      rewrite E, <- app_assoc, app_nil_r; reflexivity.
  - destruct (accepted (cur_role st1)); [|rewrite handler_eq];
      destruct tk; cbn [snd set_monitoring finalize_state observer];
      rewrite E, <- !app_assoc; reflexivity.
Qed.

(** X7.  The observer is first put in thinking mode, then receives, chunk
    by chunk and in arrival order, the reasoning delta and then the content
    delta of every chunk of the stream that goes through the loop -- those
    yielded before a fault or before the stop event ends the loop -- and is
    flushed exactly when the loop has run to the end of the stream.  A call
    that raises has already handed over everything that arrived before the
    fault. *)
Theorem observer_sees_every_delta : forall tk id msgs tr st,
  observer (snd (call tk id msgs (inr tr) st)) =
  observer st ++
  SetCurrentMode MODEL_OUTPUT_THINKING ::
  flat_map body_observer (processed (stop_event st) tr) ++
  if completes (stop_event st) tr then [FlushRemainingTokens] else [].
Proof.
  intros tk id msgs tr st. exact (call_observer tk id msgs tr st).
Qed.

Lemma no_delta_no_content : forall cs,
  existsb has_delta cs = false -> content_deltas cs = [].
Proof.
  induction cs as [|c cs IH]; intros H; [reflexivity|].
  cbn [existsb] in H. apply orb_false_elim in H as [H1 H2].
  unfold content_deltas. cbn [flat_map].
  rewrite (has_delta_false_content c H1). cbn. apply IH, H2.
Qed.

(** The tracker calls made so far in a call, [base] being those made
    before it. *)
Lemma for_chunks_tracker : forall base tr st,
  (tracker st =
     base ++ (if existsb has_delta (chunk_list st) then [RecordFirstToken] else []) ++
     map RecordToken (content_deltas (chunk_list st)) /\
   first_token_received st = existsb has_delta (chunk_list st)) ->
  let st' := snd (for_chunks true tr st) in
  tracker st' =
    base ++ (if existsb has_delta (chunk_list st') then [RecordFirstToken] else []) ++
    map RecordToken (content_deltas (chunk_list st')).
Proof.
  intros base tr st H. cbn zeta.
  refine (proj1 (for_chunks_preserves
           (fun s =>
              tracker s =
                base ++ (if existsb has_delta (chunk_list s)
                         then [RecordFirstToken] else []) ++
                map RecordToken (content_deltas (chunk_list s)) /\
              first_token_received s = existsb has_delta (chunk_list s))
           true _ _ tr st H)).
  - intros s Hs. exact Hs.
  - intros c s _ (Ht & Hf).
    cbn [body_state tracker chunk_list first_token_received].
    unfold content_deltas in *. rewrite flat_map_snoc, existsb_app, map_app.
    cbn [existsb]. rewrite orb_false_r, Ht, Hf. unfold body_tracker.
    assert (T : match chunk_content c with
                | Some t => [RecordToken t]
                | None => []
                end = map RecordToken (opt_list (chunk_content c)))
      by (destruct (chunk_content c); reflexivity).
    rewrite T.
    destruct (existsb has_delta (chunk_list s)) eqn:E; cbn [negb andb orb].
    + split; [|reflexivity]. rewrite <- !app_assoc. reflexivity.
    + pose proof (no_delta_no_content _ E) as N. unfold content_deltas in N.
      rewrite N. cbn [map app]. rewrite app_nil_r.
      destruct (has_delta c) eqn:D; split; try reflexivity.
Qed.

Lemma call_tracker : forall id msgs tr st,
  (let chunks := processed (stop_event st) tr in
   tracker (snd (call true id msgs (inr tr) st)) =
   tracker st ++
   (if existsb has_delta chunks then [RecordFirstToken] else []) ++
   map RecordToken (content_deltas chunks) ++
   if completes (stop_event st) tr
   then [RecordCompletion (fst (usage_counts chunks)) (snd (usage_counts chunks))]
   else []) /\
  tracker (snd (call false id msgs (inr tr) st)) = tracker st.
Proof.
  intros id msgs tr st. split.
  - cbn zeta.
    destruct (entry_state_fields true id msgs st)
      as (Es & _ & _ & Ec & _ & _ & Ef & Et).
    pose proof (for_chunks_tracker (tracker st) tr (entry_state true id msgs st)) as T.
    rewrite Ec, Ef, Et in T. cbn zeta in T.
    specialize (T (conj (eq_sym (app_nil_r _)) eq_refl)).
    pose proof (for_chunks_processed true tr (entry_state true id msgs st)) as P.
    rewrite Ec, Es in P. cbn [app] in P. rewrite P in T.
    rewrite (loop_outcome_completes true id msgs tr st), call_eq.
    destruct (for_chunks true tr (entry_state true id msgs st)) as [[e|[]] st1];
      cbn [fst snd] in T, P |- *.
    + rewrite handler_eq. cbn [snd set_monitoring tracker].
      rewrite T, app_nil_r. reflexivity.
    + destruct (accepted (cur_role st1)); [|rewrite handler_eq];
        cbn [snd set_monitoring finalize_state tracker];
        rewrite T, P, <- !app_assoc; reflexivity.
  - destruct (entry_state_fields false id msgs st) as (_ & _ & _ & _ & _ & _ & _ & Et).
    rewrite call_eq.
    assert (P : tracker (snd (for_chunks false tr (entry_state false id msgs st)))
                = tracker st).
    { apply (for_chunks_preserves (fun s => tracker s = tracker st) false).
      - intros s Hs. exact Hs.
      - intros c s _ Hs. cbn. rewrite Hs. apply app_nil_r.
      - exact Et. }
    destruct (for_chunks false tr (entry_state false id msgs st)) as [[e|[]] st1];
      cbn [snd] in P.
    + rewrite handler_eq. exact P.
    + destruct (accepted (cur_role st1)); [|rewrite handler_eq];
        cbn; rewrite P; apply app_nil_r.
Qed.

(** X8.  With a token tracker, the tracker calls of one invocation are, in
    this order: [record_first_token] once if some chunk that went through
    the loop carried a delta; [record_token] once for each content delta of
    those chunks, in arrival order; and [record_completion] with the
    extracted counts once, exactly when the loop has run to the end of the
    stream.  Without a token tracker, the tracker is never called. *)
Theorem tracker_calls_of_one_invocation : forall id msgs tr st,
  (let chunks := processed (stop_event st) tr in
   tracker (snd (call true id msgs (inr tr) st)) =
   tracker st ++
   (if existsb has_delta chunks then [RecordFirstToken] else []) ++
   map RecordToken (content_deltas chunks) ++
   if completes (stop_event st) tr
   then [RecordCompletion (fst (usage_counts chunks)) (snd (usage_counts chunks))]
   else []) /\
  tracker (snd (call false id msgs (inr tr) st)) = tracker st.
Proof.
  intros id msgs tr st. exact (call_tracker id msgs tr st).
Qed.

Lemma observed_tokens_app : forall l1 l2,
  observed_tokens (l1 ++ l2) = observed_tokens l1 ++ observed_tokens l2.
Proof.
  induction l1 as [|[m|r|t|] l1 IH]; intros l2; cbn; rewrite ?IH; reflexivity.
Qed.

Lemma recorded_tokens_app : forall l1 l2,
  recorded_tokens (l1 ++ l2) = recorded_tokens l1 ++ recorded_tokens l2.
Proof.
  induction l1 as [|[|t|i o] l1 IH]; intros l2; cbn; rewrite ?IH; reflexivity.
Qed.

Lemma observed_tokens_body : forall cs,
  observed_tokens (flat_map body_observer cs) = content_deltas cs.
Proof.
  induction cs as [|c cs IH]; [reflexivity|].
  unfold content_deltas in *. cbn [flat_map].
  rewrite observed_tokens_app, IH. unfold body_observer.
  destruct (chunk_reasoning c), (chunk_content c); reflexivity.
Qed.

Lemma recorded_tokens_map : forall ts,
  recorded_tokens (map RecordToken ts) = ts.
Proof.
  induction ts as [|t ts IH]; [reflexivity|]. cbn. rewrite IH. reflexivity.
Qed.

(** X16.  When a call made with a token tracker returns, the tokens the
    observer was handed during the call, put together in the order it got
    them, are the content of the returned message, and the tracker counted
    the same tokens in the same order. *)
Theorem streamed_tokens_add_up : forall id msgs tr st m st',
  call true id msgs (inr tr) st = (inr m, st') ->
  exists seen counted,
    observer st' = observer st ++ seen /\
    tracker st' = tracker st ++ counted /\
    join (observed_tokens seen) = msg_content m /\
    recorded_tokens counted = observed_tokens seen.
Proof.
  intros id msgs tr st m st' H.
  pose proof (call_observer true id msgs tr st) as O.
  pose proof (proj1 (call_tracker id msgs tr st)) as T.
  cbn zeta in O, T. rewrite H in O, T. cbn [fst snd] in O, T.
  assert (C : completes (stop_event st) tr = true /\
              msg_content m = join (content_deltas (yielded tr))).
  { destruct (call_returned _ _ _ _ _ _ _ H) as (st1 & L & _ & -> & _).
    destruct (entry_loop_done _ _ _ _ _ _ L) as (_ & J & _ & _ & K).
    cbn. rewrite J. auto. }
  destruct C as [K M]. rewrite K, (completes_processed _ _ K) in O, T.
  eexists. eexists. split; [exact O|]. split; [exact T|].
  cbn [observed_tokens].
  rewrite observed_tokens_app, observed_tokens_body. cbn [observed_tokens].
  rewrite app_nil_r, !recorded_tokens_app, recorded_tokens_map. cbn [recorded_tokens].
  rewrite app_nil_r. split; [symmetry; exact M|].
  destruct (existsb has_delta (yielded tr)); reflexivity.
Qed.

(** ** The stop event after the call *)

Lemma for_chunks_interrupts_flag : forall tk pre c post st,
  forallb deliverable pre = true ->
  well_formed c = true ->
  stop_event st = true \/ In SetStop pre ->
  stop_event (snd (for_chunks tk (pre ++ Yield c :: post) st)) = true.
Proof.
  intros tk pre c post; induction pre as [|[|c'|e] pre IH]; intros st D W H.
  - destruct H as [S|[]]. cbn [app].
    rewrite (for_chunks_yield tk c post st W), S. exact S.
  - cbn [app]. rewrite for_chunks_set_stop.
    apply IH; [exact D | exact W | left; reflexivity].
  - cbn [forallb deliverable] in D. apply andb_prop in D as [W' D].
    cbn [app]. rewrite (for_chunks_yield tk c' _ st W').
    destruct (stop_event st) eqn:S; [exact S|].
    apply IH; [exact D | exact W |].
    destruct H as [H|[H|H]]; [discriminate | discriminate | right; exact H].
  - discriminate.
Qed.

Lemma call_keeps_stop_event : forall tk id msgs tr st,
  stop_event (snd (call tk id msgs (inr tr) st)) =
  stop_event (snd (for_chunks tk tr (entry_state tk id msgs st))).
Proof.
  intros tk id msgs tr st. rewrite call_eq.
  destruct (for_chunks tk tr (entry_state tk id msgs st)) as [[e|[]] st1].
  - rewrite handler_eq. destruct tk; reflexivity.
  - destruct (accepted (cur_role st1)); [reflexivity|].
    rewrite handler_eq. destruct tk; reflexivity.
Qed.

(** X9.  Nothing in the call clears the stop event.  Once a call has been
    interrupted by it, the next call on the same model object is
    interrupted as well, as soon as its stream yields a chunk -- whatever
    that stream, and with or without a token tracker. *)
Theorem stop_event_outlives_the_call :
  forall tk1 id1 msgs1 pre1 c1 post1 tk2 id2 msgs2 pre2 c2 post2 st,
    forallb deliverable pre1 = true ->
    well_formed c1 = true ->
    stop_event st = true \/ In SetStop pre1 ->
    forallb deliverable pre2 = true ->
    well_formed c2 = true ->
    let st1 := snd (call tk1 id1 msgs1 (inr (pre1 ++ Yield c1 :: post1)) st) in
    stop_event st1 = true /\
    fst (call tk2 id2 msgs2 (inr (pre2 ++ Yield c2 :: post2)) st1)
    = inl (mkExn "RuntimeError" "Model is interrupted by stop event").
Proof.
  intros tk1 id1 msgs1 pre1 c1 post1 tk2 id2 msgs2 pre2 c2 post2 st D1 W1 H D2 W2.
  cbn zeta.
  assert (S1 : stop_event (snd (call tk1 id1 msgs1 (inr (pre1 ++ Yield c1 :: post1)) st))
               = true).
  { rewrite call_keeps_stop_event.
    apply for_chunks_interrupts_flag; [exact D1 | exact W1 |].
    destruct (entry_state_fields tk1 id1 msgs1 st) as (Es & _).
    rewrite Es. exact H. }
  split; [exact S1|].
  set (st1 := snd (call tk1 id1 msgs1 (inr (pre1 ++ Yield c1 :: post1)) st)) in *.
  destruct (entry_state_fields tk2 id2 msgs2 st1) as (Es & _).
  destruct (for_chunks_interrupts tk2 pre2 c2 post2 (entry_state tk2 id2 msgs2 st1) D2 W2)
    as (st' & E & _); [left; rewrite Es; exact S1|].
  rewrite call_eq, E, handler_eq. reflexivity.
Qed.

End CallFacts.

(** * Sample runs

    Calls on concrete streams, with a text chosen for the
    [ValidationError]. *)

#[local] Abbreviation call := (OpenAIModel.call Sample.validation_text).

Lemma content_is_concatenation_witness :
  exists m st',
    call true "gpt" Sample.messages
         (inr (map Yield [Sample.content_chunk "Hel" (Some "assistant");
                          Sample.content_chunk "lo" None])) Sample.fresh
    = (inr m, st') /\
    msg_content m = "Hello".
Proof.
  apply (proj2 (content_is_concatenation Sample.validation_text true "gpt"
                  Sample.messages
                  [Sample.content_chunk "Hel" (Some "assistant");
                   Sample.content_chunk "lo" None]
                  ["Hel"; "lo"] Sample.fresh eq_refl eq_refl)).
  repeat constructor.
Defined.

Lemma fault_classification_witness :
  fst (call true "gpt" Sample.messages
            (inr [Yield (Sample.content_chunk "Hel" None); Raise Sample.context_fault])
            Sample.fresh)
  = inl (mkExn "ValueError"
           "Token limit exceeded: Error code: 400 - context_length_exceeded")
  /\
  fst (call true "gpt" Sample.messages
            (inr [Yield (Sample.content_chunk "Hel" None); Raise Sample.network_fault])
            Sample.fresh)
  = inl Sample.network_fault.
Proof.
  split.
  - eapply (fault_classification Sample.validation_text true "gpt" Sample.messages
             [Yield (Sample.content_chunk "Hel" None); Raise Sample.context_fault]
             Sample.fresh Sample.context_fault).
    vm_compute. reflexivity.
  - eapply (fault_classification Sample.validation_text true "gpt" Sample.messages
             [Yield (Sample.content_chunk "Hel" None); Raise Sample.network_fault]
             Sample.fresh Sample.network_fault).
    vm_compute; reflexivity.
Defined.

Lemma fault_keeps_token_counts_witness :
  exists e st',
    call true "gpt" Sample.messages
         (inr [Yield (Sample.content_chunk "Hel" None); SetStop;
               Yield (Sample.usage_chunk (mkUsage 9 (Some 9%Z) 18))])
         Sample.used = (inl e, st') /\
    last_input_token_count st' = Some 5%Z /\
    last_output_token_count st' = Some 2%Z.
Proof.
  eexists. eexists. split; [vm_compute; reflexivity|].
  eapply (fault_keeps_token_counts Sample.validation_text true "gpt" Sample.messages
           (inr [Yield (Sample.content_chunk "Hel" None); SetStop;
                 Yield (Sample.usage_chunk (mkUsage 9 (Some 9%Z) 18))])
           Sample.used).
  - vm_compute; reflexivity.
  - intros tr E. inversion E; subst. reflexivity.
Defined.

(** C10 as stated fails: the only content chunk is tagged "user" and the
    last chunk carries usage 9 and 9.  The loop runs to the end, the counts
    5 and 2 of the earlier call are overwritten, and then the message
    constructor refuses the role: the call raises with the counts
    changed. *)
Lemma token_counts_overwritten_before_refusal :
  let result := call true "gpt" Sample.messages
                     (inr [Yield (Sample.content_chunk "Hi" (Some "user"));
                           Yield (Sample.usage_chunk (mkUsage 9 (Some 9%Z) 18))])
                     Sample.used in
  last_input_token_count Sample.used = Some 5%Z /\
  last_output_token_count Sample.used = Some 2%Z /\
  fst result = inl (mkExn "ValidationError" (Sample.validation_text "user")) /\
  last_input_token_count (snd result) = Some 9%Z /\
  last_output_token_count (snd result) = Some 9%Z.
Proof. repeat split. Qed.

(** A chunk with an empty [choices] list makes [chunk.choices[0]] raise
    [IndexError], which the call passes on; the usage it carries is not
    read. *)
Example chunk_without_choices :
  call true "gpt" Sample.messages
       (inr [Yield (Sample.content_chunk "Hi" None);
             Yield (mkChunk [] (Some (mkUsage 5 (Some 2%Z) 7)))])
       Sample.fresh
  = (inl IndexError,
     mkState false None None
       [SetCurrentMode MODEL_OUTPUT_THINKING; AddModelNewToken "Hi"]
       [RecordFirstToken; RecordToken "Hi"]
       [completion_started; span_attributes "gpt" Sample.messages;
        error_occurred IndexError]
       [] [Sample.content_chunk "Hi" None] ["Hi"] None true).
Proof. reflexivity. Qed.

Lemma usage_extraction_witness :
  exists st',
    call false "gpt" Sample.messages
         (inr [Yield (Sample.usage_chunk (mkUsage 11 None 30))]) Sample.used
    = (inr (mkChatMessage "assistant" "" 
              (Some [Yield (Sample.usage_chunk (mkUsage 11 None 30))])), st') /\
    last_input_token_count st' = Some 11%Z /\
    last_output_token_count st' = Some 30%Z.
Proof.
  eexists. split; [vm_compute; reflexivity|].
  edestruct (proj1 (usage_extraction Sample.validation_text) false "gpt" Sample.messages
               [Yield (Sample.usage_chunk (mkUsage 11 None 30))] Sample.used)
    as (_ & U & _); [vm_compute; reflexivity|].
  destruct (U (Sample.usage_chunk (mkUsage 11 None 30)) (mkUsage 11 None 30)
              eq_refl eq_refl) as (Hi & Ho & _).
  split; [exact Hi | exact Ho].
Defined.

Lemma stop_within_one_iteration_witness :
  List.length (chunk_list (snd (call true "gpt" Sample.messages
            (inr ([Yield (Sample.content_chunk "Hel" None); SetStop] ++
                  map Yield (Sample.content_chunk "lo" None :: Sample.hello)))
            Sample.fresh)))
  <= 1 + 1.
Proof.
  apply (stop_within_one_iteration Sample.validation_text true "gpt" Sample.messages
           [Yield (Sample.content_chunk "Hel" None); SetStop]
           (map Yield (Sample.content_chunk "lo" None :: Sample.hello))
           Sample.fresh).
  right. simpl. auto.
Defined.

Lemma stop_event_interrupts_witness :
  fst (call true "gpt" Sample.messages
         (inr ([Yield (Sample.content_chunk "Hel" None); SetStop] ++
               Yield (Sample.content_chunk "lo" None) :: map Yield Sample.hello))
         Sample.fresh)
  = inl (mkExn "RuntimeError" "Model is interrupted by stop event").
Proof.
  apply (stop_event_interrupts Sample.validation_text true "gpt" Sample.messages
           [Yield (Sample.content_chunk "Hel" None); SetStop]
           (Sample.content_chunk "lo" None) (map Yield Sample.hello) Sample.fresh).
  - reflexivity.
  - reflexivity.
  - right. simpl. auto.
Defined.

(** C1 as stated fails: with the stop event set before the call and a
    stream that yields nothing, the loop body never runs, the flag is never
    polled, and the call returns a message. *)
Lemma stop_event_set_empty_stream_returns :
  stop_event Sample.stopped = true /\
  fst (call true "gpt" Sample.messages (inr []) Sample.stopped)
  = inr (mkChatMessage "assistant" "" (Some [])).
Proof. split; reflexivity. Qed.

(** C5 as stated fails: with a tracker present and a stream that brings no
    delta, the first-token latency is not recorded at all; and on a stream
    whose only delta is the empty string it is recorded, at that delta. *)
Lemma first_token_not_recorded_without_delta :
  count_first_token
    (tracker (snd (call true "gpt" Sample.messages
                        (inr [Yield (Sample.usage_chunk (mkUsage 5 (Some 0%Z) 5))])
                        Sample.fresh))) = 0 /\
  tracker (snd (call true "gpt" Sample.messages
                     (inr [Yield (Sample.content_chunk "" None)])
                     Sample.fresh))
  = [RecordFirstToken; RecordToken ""; RecordCompletion 0 0].
Proof. split; reflexivity. Qed.

(** A delta that is the empty string counts: only [None] is skipped. *)
Example first_token_on_empty_delta :
  tracker (snd (call true "gpt" Sample.messages
                     (inr [Yield (Sample.content_chunk "" (Some "assistant"));
                           Yield (Sample.content_chunk "Hi" None)])
                     Sample.fresh))
  = [RecordFirstToken; RecordToken ""; RecordToken "Hi"; RecordCompletion 0 0].
Proof. reflexivity. Qed.

(** A reasoning delta that comes first takes the recording; the content
    delta after it records nothing more. *)
Example first_token_on_reasoning_delta :
  tracker (snd (call true "gpt" Sample.messages
                     (inr [Yield (Sample.reasoning_chunk "hm");
                           Yield (Sample.content_chunk "Hi" None)])
                     Sample.fresh))
  = [RecordFirstToken; RecordToken "Hi"; RecordCompletion 0 0] /\
  observer (snd (call true "gpt" Sample.messages
                      (inr [Yield (Sample.reasoning_chunk "hm");
                            Yield (Sample.content_chunk "Hi" None)])
                      Sample.fresh))
  = [SetCurrentMode MODEL_OUTPUT_THINKING; AddModelReasoningContent "hm";
     AddModelNewToken "Hi"; FlushRemainingTokens].
Proof. split; reflexivity. Qed.

Lemma returned_role_is_assistant_witness :
  exists m st',
    call true "gpt" Sample.messages (inr (map Yield Sample.hello)) Sample.fresh
    = (inr m, st') /\
    msg_role m = "assistant" /\
    cur_role st' = None /\
    role_or_assistant (cur_role st') = "assistant".
Proof.
  apply (proj2 (returned_role_is_assistant Sample.validation_text true "gpt"
                  Sample.messages (map Yield Sample.hello) Sample.fresh)).
  - reflexivity.
  - repeat constructor.
Defined.

(** C6 as stated fails: the first content chunk is tagged "user" and the
    second carries no tag.  Resolution as the specification words it keeps
    "user"; the code overwrites the local [role] with [None] at the second
    chunk and returns a message with the assistant role. *)
Lemma role_tag_not_kept :
  let chunks := [Sample.content_chunk "Hel" (Some "user");
                 Sample.content_chunk "lo" None] in
  let result := call true "gpt" Sample.messages (inr (map Yield chunks)) Sample.fresh in
  spec_resolved_role chunks = "user" /\
  cur_role (snd result) = None /\
  fst result = inr (mkChatMessage "assistant" "Hello" (Some (map Yield chunks))).
Proof. repeat split. Qed.

Lemma monitoring_events_witness :
  monitoring (snd (call true "gpt" Sample.messages
                     (inr ([Yield (Sample.content_chunk "Hel" None); SetStop] ++
                           Yield (Sample.content_chunk "lo" None) ::
                           map Yield Sample.hello))
                     Sample.fresh))
  = [AddSpanEvent "completion_started" [];
     SetSpanAttributes [("model_id", VStr "gpt"); ("message_count", VInt 1)];
     AddSpanEvent "model_stopped" [("reason", VStr "stop_event_set")];
     AddSpanEvent "error_occurred"
       [("error_type", VStr "RuntimeError");
        ("error_message", VStr "Model is interrupted by stop event")]].
Proof.
  apply (proj2 (proj2 (monitoring_events Sample.validation_text "gpt" Sample.messages Sample.fresh))
           [Yield (Sample.content_chunk "Hel" None); SetStop]
           (Sample.content_chunk "lo" None) (map Yield Sample.hello)).
  - reflexivity.
  - reflexivity.
  - right. simpl. auto.
Defined.

(** C7 as stated fails: a call made without a token tracker runs to
    completion and emits no event, not even "completion_started". *)
Lemma no_tracker_no_events :
  fst (call false "gpt" Sample.messages (inr (map Yield Sample.hello)) Sample.fresh)
  = inr (mkChatMessage "assistant" "Hello" (Some (map Yield Sample.hello))) /\
  monitoring (snd (call false "gpt" Sample.messages (inr (map Yield Sample.hello))
                        Sample.fresh)) = [].
Proof. split; reflexivity. Qed.

Lemma call_returns_iff_witness :
  exists m st',
    call true "gpt" Sample.messages
         (inr [Yield (Sample.reasoning_chunk "hm"); Yield (Sample.content_chunk "Hi" None);
               SetStop])
         Sample.fresh = (inr m, st').
Proof.
  apply (proj2 (call_returns_iff Sample.validation_text true "gpt" Sample.messages
                  [Yield (Sample.reasoning_chunk "hm");
                   Yield (Sample.content_chunk "Hi" None); SetStop]
                  Sample.fresh)).
  split; reflexivity.
Defined.

Lemma returned_content_skips_reasoning_witness :
  exists m st',
    call true "gpt" Sample.messages
         (inr [Yield (Sample.reasoning_chunk "let me think");
               Yield (Sample.content_chunk "Hel" None);
               Yield (Sample.reasoning_chunk "more");
               Yield (Sample.content_chunk "lo" None)])
         Sample.fresh = (inr m, st') /\
    msg_content m = "Hello".
Proof.
  eexists. eexists. split; [vm_compute; reflexivity|].
  refine (proj1 (returned_content_skips_reasoning Sample.validation_text true "gpt" Sample.messages
            [Yield (Sample.reasoning_chunk "let me think");
             Yield (Sample.content_chunk "Hel" None);
             Yield (Sample.reasoning_chunk "more");
             Yield (Sample.content_chunk "lo" None)]
            Sample.fresh _ _ _)).
  vm_compute; reflexivity.
Defined.

Lemma call_result_independent_of_history_witness :
  fst (call true "gpt" Sample.messages (inr (map Yield Sample.hello)) Sample.used)
  = fst (call false "other" [] (inr (map Yield Sample.hello)) Sample.fresh).
Proof.
  apply (call_result_independent_of_history Sample.validation_text true false "gpt" "other"
           Sample.messages [] (map Yield Sample.hello) Sample.used Sample.fresh).
  reflexivity.
Defined.

Lemma stream_fault_comes_first_witness :
  fst (call true "gpt" Sample.messages
            (inr ([Yield (Sample.content_chunk "Hel" None); SetStop] ++
                  Raise Sample.network_fault :: map Yield Sample.hello))
            Sample.fresh)
  = inl Sample.network_fault.
Proof.
  apply (stream_fault_comes_first Sample.validation_text true "gpt" Sample.messages
           [Yield (Sample.content_chunk "Hel" None); SetStop]
           Sample.network_fault (map Yield Sample.hello) Sample.fresh).
  reflexivity.
Defined.

Lemma chunk_without_choices_raises_witness :
  fst (call true "gpt" Sample.messages
            (inr ([Yield (Sample.content_chunk "Hi" None); SetStop] ++
                  Yield (mkChunk [] (Some (mkUsage 5 (Some 2%Z) 7))) :: []))
            Sample.fresh)
  = inl (mkExn "IndexError" "list index out of range").
Proof.
  apply (chunk_without_choices_raises Sample.validation_text true "gpt" Sample.messages
           [Yield (Sample.content_chunk "Hi" None); SetStop]
           (mkChunk [] (Some (mkUsage 5 (Some 2%Z) 7))) [] Sample.fresh);
    reflexivity.
Defined.

Lemma request_fault_not_classified_witness :
  fst (call true "gpt" Sample.messages (inl Sample.context_fault) Sample.fresh)
  = inl Sample.context_fault /\
  fst (call true "gpt" Sample.messages (inr [Raise Sample.context_fault]) Sample.fresh)
  = inl (mkExn "ValueError"
           "Token limit exceeded: Error code: 400 - context_length_exceeded").
Proof.
  destruct (request_fault_not_classified Sample.validation_text true "gpt" Sample.messages
              Sample.context_fault [] Sample.fresh eq_refl) as [H1 H2].
  split; [rewrite H1; reflexivity | exact H2].
Defined.

Lemma streamed_tokens_add_up_witness :
  exists seen counted,
    observer (snd (call true "gpt" Sample.messages (inr (map Yield Sample.hello))
                        Sample.fresh)) = observer Sample.fresh ++ seen /\
    tracker (snd (call true "gpt" Sample.messages (inr (map Yield Sample.hello))
                       Sample.fresh)) = tracker Sample.fresh ++ counted /\
    join (observed_tokens seen) = "Hello" /\
    recorded_tokens counted = observed_tokens seen.
Proof.
  refine (streamed_tokens_add_up Sample.validation_text "gpt" Sample.messages (map Yield Sample.hello)
            Sample.fresh
            (mkChatMessage "assistant" "Hello" (Some (map Yield Sample.hello)))
            _ _).
  vm_compute. reflexivity.
Defined.

Lemma stop_event_outlives_the_call_witness :
  let st1 := snd (call true "gpt" Sample.messages
                       (inr ([Yield (Sample.content_chunk "Hel" None); SetStop] ++
                             Yield (Sample.content_chunk "lo" None) :: []))
                       Sample.fresh) in
  stop_event st1 = true /\
  fst (call false "gpt" Sample.messages
            (inr ([] ++ Yield (Sample.content_chunk "Hello" None) :: map Yield Sample.hello))
            st1)
  = inl (mkExn "RuntimeError" "Model is interrupted by stop event").
Proof.
  apply (stop_event_outlives_the_call Sample.validation_text
           true "gpt" Sample.messages
           [Yield (Sample.content_chunk "Hel" None); SetStop]
           (Sample.content_chunk "lo" None) []
           false "gpt" Sample.messages
           [] (Sample.content_chunk "Hello" None) (map Yield Sample.hello)
           Sample.fresh).
  - reflexivity.
  - reflexivity.
  - right. simpl. auto.
  - reflexivity.
  - reflexivity.
Defined.

(** * backend/database/client.py *)

(** ** UTF-8 *)

Ltac zarith := Z.div_mod_to_equations; lia.

Ltac decide_tests :=
  repeat match goal with
  | |- context [(?a <? ?b)%Z] =>
      first [ replace (a <? b)%Z with true by (symmetry; apply Z.ltb_lt; zarith)
            | replace (a <? b)%Z with false by (symmetry; apply Z.ltb_ge; zarith) ]
  | |- context [(?a <=? ?b)%Z] =>
      first [ replace (a <=? b)%Z with true by (symmetry; apply Z.leb_le; zarith)
            | replace (a <=? b)%Z with false by (symmetry; apply Z.leb_gt; zarith) ]
  end.

Lemma not_surrogate : forall cp,
  Utf8.is_surrogate cp = false -> (cp < 0xD800 \/ 0xDFFF < cp)%Z.
Proof.
  intros cp S. unfold Utf8.is_surrogate in S. apply andb_false_iff in S.
  destruct S as [S|S]; [left | right]; apply Z.leb_gt, S.
Qed.

(** Decoding reads back the code point that was encoded. *)
Lemma decode_encode_cp : forall cp rest,
  Utf8.is_code_point cp ->
  Utf8.is_surrogate cp = false ->
  Utf8.decode (Utf8.encode_cp cp ++ rest) = Utf8.push cp (Utf8.decode rest).
Proof.
  intros cp rest R S. apply not_surrogate in S. unfold Utf8.is_code_point in R.
  unfold Utf8.encode_cp.
  destruct (cp <? 0x80)%Z eqn:C1; [apply Z.ltb_lt in C1 | apply Z.ltb_ge in C1].
  { cbn [app Utf8.decode]. decide_tests. reflexivity. }
  destruct (cp <? 0x800)%Z eqn:C2; [apply Z.ltb_lt in C2 | apply Z.ltb_ge in C2].
  { cbn [app Utf8.decode]. unfold Utf8.is_cont. decide_tests. cbn [andb].
    f_equal. zarith. }
  destruct (cp <? 0x10000)%Z eqn:C3; [apply Z.ltb_lt in C3 | apply Z.ltb_ge in C3].
  { cbn [app Utf8.decode]. cbv zeta. unfold Utf8.is_cont, Utf8.is_surrogate.
    replace ((0xE0 + cp / 4096 - 0xE0) * 4096 + (0x80 + (cp / 64) mod 64 - 0x80) * 64
             + (0x80 + cp mod 64 - 0x80))%Z with cp by zarith.
    decide_tests. cbn [andb negb].
    destruct S; decide_tests; reflexivity. }
  cbn [app Utf8.decode]. cbv zeta. unfold Utf8.is_cont.
  replace ((0xF0 + cp / 262144 - 0xF0) * 262144 + (0x80 + (cp / 4096) mod 64 - 0x80) * 4096
           + (0x80 + (cp / 64) mod 64 - 0x80) * 64 + (0x80 + cp mod 64 - 0x80))%Z
    with cp by zarith.
  decide_tests. reflexivity.
Qed.

(** Encoding with [errors='ignore'] and decoding again never fails, and
    removes the surrogates and nothing else. *)
Lemma decode_encode_ignore : forall s,
  Forall Utf8.is_code_point s ->
  Utf8.decode (Utf8.encode_ignore s) = Some (Utf8.without_surrogates s).
Proof.
  induction s as [|cp s IH]; intros F; [reflexivity|].
  inversion F as [|? ? Hcp F']; subst.
  unfold Utf8.encode_ignore, Utf8.without_surrogates in *. cbn [flat_map filter].
  destruct (Utf8.is_surrogate cp) eqn:S; cbn [negb app].
  - apply IH, F'.
  - rewrite (decode_encode_cp cp _ Hcp S), (IH F'). reflexivity.
Qed.

Lemma without_surrogates_idem : forall s,
  Utf8.without_surrogates (Utf8.without_surrogates s) = Utf8.without_surrogates s.
Proof.
  induction s as [|cp s IH]; [reflexivity|].
  unfold Utf8.without_surrogates in *. cbn [filter].
  destruct (Utf8.is_surrogate cp) eqn:S; cbn [negb]; [exact IH|].
  cbn [filter]. rewrite S. cbn [negb]. f_equal. exact IH.
Qed.

Lemma without_surrogates_clean : forall s,
  Forall (fun cp => Utf8.is_surrogate cp = false) s ->
  Utf8.without_surrogates s = s.
Proof.
  induction s as [|cp s IH]; intros F; [reflexivity|].
  inversion F as [|? ? S F']; subst.
  unfold Utf8.without_surrogates in *. cbn [filter]. rewrite S. cbn [negb].
  f_equal. apply IH, F'.
Qed.

Lemma without_surrogates_code_points : forall s,
  Forall Utf8.is_code_point s -> Forall Utf8.is_code_point (Utf8.without_surrogates s).
Proof.
  intros s F. unfold Utf8.without_surrogates.
  apply Forall_forall. intros cp H. apply filter_In in H as [H _].
  rewrite Forall_forall in F. apply F, H.
Qed.

(** ** [clean_string_values] *)

Import PostgresClient.

Lemma dict_set_fresh : forall k v d,
  ~ In k (map fst d) -> dict_set k v d = d ++ [(k, v)].
Proof.
  intros k v d; induction d as [|[k' v'] d IH]; intros H; [reflexivity|].
  cbn [dict_set]. cbn [map fst In] in H.
  destruct (String.eqb_spec k k') as [->|N]; [exfalso; apply H; left; reflexivity|].
  cbn [app]. f_equal. apply IH. intros X. apply H. right. exact X.
Qed.

Lemma clean_value_stripped : forall v,
  well_formed_value v -> clean_value v = inr (stripped v).
Proof.
  intros [s|z|b|bs|] H; try reflexivity.
  cbn in H |- *. rewrite (decode_encode_ignore s H). reflexivity.
Qed.

Lemma clean_items_eq : forall items cleaned,
  NoDup (map fst (cleaned ++ items)) ->
  Forall (fun kv => well_formed_value (snd kv)) items ->
  clean_items items cleaned =
  inr (cleaned ++ map (fun kv => (fst kv, stripped (snd kv))) items).
Proof.
  induction items as [|[k v] items IH]; intros cleaned N F.
  - cbn. rewrite app_nil_r. reflexivity.
  - inversion F as [|? ? Hv F']; subst. cbn [snd] in Hv.
    cbn [clean_items]. rewrite (clean_value_stripped v Hv).
    assert (Hk : ~ In k (map fst cleaned)).
    { rewrite map_app in N. cbn [map fst] in N.
      apply NoDup_remove_2 in N. intros X. apply N, in_or_app. left; exact X. }
    rewrite (dict_set_fresh k _ cleaned Hk).
    rewrite IH; [| |exact F'].
    + cbn [map fst snd]. rewrite <- app_assoc. reflexivity.
    + rewrite <- app_assoc. rewrite !map_app in N |- *. exact N.
Qed.

Lemma clean_string_values_eq : forall data,
  well_formed_dict data ->
  clean_string_values data =
  inr (map (fun kv => (fst kv, stripped (snd kv))) data).
Proof.
  intros data [N F]. unfold clean_string_values.
  rewrite (clean_items_eq data []); [reflexivity | exact N | exact F].
Qed.

(** X10.  On a dictionary as Python builds it, [clean_string_values] never
    raises and returns a dictionary with the same keys in the same order;
    every string value has lost its lone surrogates and nothing else, and
    every other value is the one that was there. *)
Theorem clean_string_values_strips_surrogates : forall data,
  well_formed_dict data ->
  clean_string_values data =
  inr (map (fun kv => (fst kv, stripped (snd kv))) data).
Proof.
  intros data W. exact (clean_string_values_eq data W).
Qed.

Lemma sample_row_well_formed : well_formed_dict SampleStore.row.
Proof.
  split.
  - cbn. repeat constructor; cbn; intuition discriminate.
  - repeat constructor; cbn; unfold Utf8.is_code_point; lia.
Defined.

Lemma clean_string_values_strips_surrogates_witness :
  clean_string_values SampleStore.row =
  inr [("name", VText [97; 233; 0x20AC; 0x1F600]%Z);
       ("age", VInteger 41); ("note", VNull)].
Proof.
  exact (clean_string_values_strips_surrogates SampleStore.row sample_row_well_formed).
Defined.

Lemma stripped_well_formed : forall data,
  well_formed_dict data ->
  well_formed_dict (map (fun kv => (fst kv, stripped (snd kv))) data).
Proof.
  intros data [N F]. split.
  - rewrite map_map. cbn [fst]. exact N.
  - apply Forall_map. eapply Forall_impl; [|exact F].
    intros [k [s|z|b|bs|]] H; cbn in *; auto.
    apply without_surrogates_code_points, H.
Qed.

Lemma stripped_idem : forall v, stripped (stripped v) = stripped v.
Proof.
  intros [s|z|b|bs|]; try reflexivity. cbn. rewrite without_surrogates_idem. reflexivity.
Qed.

(** X11.  Cleaning is idempotent: cleaning what a first cleaning returned
    gives it back unchanged. *)
Theorem clean_string_values_idempotent : forall data cleaned,
  well_formed_dict data ->
  clean_string_values data = inr cleaned ->
  clean_string_values cleaned = inr cleaned.
Proof.
  intros data cleaned W H.
  rewrite (clean_string_values_eq data W) in H.
  inversion H; subst; clear H.
  rewrite (clean_string_values_eq _ (stripped_well_formed data W)).
  rewrite map_map. apply f_equal, map_ext. intros [k v]. cbn [fst snd].
  rewrite stripped_idem. reflexivity.
Qed.

Lemma clean_string_values_idempotent_witness :
  clean_string_values
    [("name", VText [97; 233; 0x20AC; 0x1F600]%Z); ("age", VInteger 41); ("note", VNull)]
  = inr [("name", VText [97; 233; 0x20AC; 0x1F600]%Z);
         ("age", VInteger 41); ("note", VNull)].
Proof.
  apply (clean_string_values_idempotent SampleStore.row _ sample_row_well_formed).
  vm_compute. reflexivity.
Defined.

(** X12.  A dictionary whose strings hold no surrogate comes back
    unchanged. *)
Theorem clean_string_values_keeps_clean_text : forall data,
  well_formed_dict data ->
  (forall k s, In (k, VText s) data ->
               Forall (fun cp => Utf8.is_surrogate cp = false) s) ->
  clean_string_values data = inr data.
Proof.
  intros data W H.
  rewrite (clean_string_values_eq data W). apply f_equal.
  rewrite <- (map_id data) at 2. apply map_ext_in.
  intros [k [s|z|b|bs|]] I; try reflexivity.
  cbn. rewrite (without_surrogates_clean s (H k s I)). reflexivity.
Qed.

Lemma clean_string_values_keeps_clean_text_witness :
  clean_string_values [("city", VText [80; 97; 114; 105; 115]%Z); ("n", VInteger 3)]
  = inr [("city", VText [80; 97; 114; 105; 115]%Z); ("n", VInteger 3)].
Proof.
  apply clean_string_values_keeps_clean_text.
  - split.
    + cbn. repeat constructor; cbn; intuition discriminate.
    + repeat constructor; cbn; unfold Utf8.is_code_point; lia.
  - intros k s [H|[H|[]]]; inversion H; subst. repeat constructor.
Defined.

(** ** The one instance *)

Lemma new_times_same : forall n cls obj,
  instance_ cls = Some obj ->
  new_times n cls = (repeat obj n, cls).
Proof.
  induction n as [|n IH]; intros cls obj H; [reflexivity|].
  cbn [new_times]. unfold new. rewrite H. rewrite (IH cls obj H). reflexivity.
Qed.

(** X13.  However many times the constructor is called, every call returns
    the same object, the class remembers it, and at most one object has
    been allocated. *)
Theorem singleton_instance : forall n cls,
  exists obj,
    fst (new_times (S n) cls) = repeat obj (S n) /\
    instance_ (snd (new_times (S n) cls)) = Some obj /\
    heap (snd (new_times (S n) cls)) <= S (heap cls).
Proof.
  intros n cls. cbn [new_times]. unfold new.
  destruct (instance_ cls) as [obj|] eqn:I.
  - exists obj. rewrite (new_times_same n cls obj I). cbn. auto.
  - exists (heap cls).
    rewrite (new_times_same n (mkClass (Some (heap cls)) (S (heap cls))) (heap cls) eq_refl).
    cbn. auto.
Qed.

(** ** [MinioClient] *)

Import MinioClient.

Lemma contains_slash_cons : forall c s,
  contains "/" (String c s) = (c =? "/")%char || contains "/" s.
Proof.
  intros c s. cbn [contains String.prefix].
  destruct (Ascii.ascii_dec "/" c) as [<-|N].
  - destruct s; reflexivity.
  - destruct (Ascii.eqb_spec c "/") as [->|_]; [contradiction N; reflexivity|].
    reflexivity.
Qed.

Lemma rfind_slash_none : forall s,
  contains "/" s = false -> rfind_slash s = None.
Proof.
  induction s as [|c s IH]; intros H; [reflexivity|].
  rewrite contains_slash_cons in H. apply orb_false_elim in H as [H1 H2].
  cbn [rfind_slash]. rewrite (IH H2), H1. reflexivity.
Qed.

Lemma rfind_slash_app : forall dir name,
  contains "/" name = false ->
  rfind_slash (dir ++ String "/" name)%string = Some (String.length dir).
Proof.
  induction dir as [|c dir IH]; intros name H.
  - cbn. rewrite (rfind_slash_none name H). reflexivity.
  - cbn [String.append rfind_slash String.length].
    rewrite (IH name H). reflexivity.
Qed.

Lemma drop_app : forall dir name,
  drop (S (String.length dir)) (dir ++ String "/" name)%string = name.
Proof.
  induction dir as [|c dir IH]; intros name; [reflexivity|].
  cbn [String.append String.length drop]. apply IH.
Qed.

(** The last component of a path is its base name. *)
Lemma basename_app : forall dir name,
  contains "/" name = false ->
  basename (dir ++ "/" ++ name)%string = name.
Proof.
  intros dir name H.
  change (dir ++ "/" ++ name)%string with (dir ++ String "/" name)%string.
  unfold basename. rewrite (rfind_slash_app dir name H). apply drop_app.
Qed.

(** X14.  When [object_name] is left out, the object is stored under the
    last component of the file path: the directory part plays no role in
    the object name or in the URL handed back, so equally named files from
    different directories go to the same object. *)
Theorem upload_file_default_object_name :
  forall self client dir name bucket,
    contains "/" name = false ->
    upload_file self client (dir ++ "/" ++ name)%string None bucket =
    upload_file self client (dir ++ "/" ++ name)%string (Some name) bucket /\
    (s3_upload_file client (dir ++ "/" ++ name)%string
                    (bucket_or bucket (default_bucket self)) name = inr tt ->
     upload_file self client (dir ++ "/" ++ name)%string None bucket =
     (true,
      (fmt (endpoint self) ++ "/" ++ fmt (bucket_or bucket (default_bucket self))
       ++ "/" ++ name)%string)).
Proof.
  intros self client dir name bucket H.
  unfold upload_file. rewrite (basename_app dir name H).
  split; [reflexivity|]. intros U. rewrite U. reflexivity.
Qed.

Lemma upload_file_default_object_name_witness :
  upload_file SampleStore.self SampleStore.s3 "/tmp/in/report.pdf" None (Some "")
  = (true, "http://minio:9000/nexent/report.pdf").
Proof.
  refine (proj2 (upload_file_default_object_name SampleStore.self SampleStore.s3
                   "/tmp/in" "report.pdf" (Some "") _) _); reflexivity.
Defined.

Lemma collect_complete : forall contents files,
  forallb complete contents = true ->
  collect contents files = inr (files ++ flat_map info contents).
Proof.
  induction contents as [|obj contents IH]; intros files H.
  - cbn. rewrite app_nil_r. reflexivity.
  - cbn [forallb] in H. apply andb_prop in H as [C H].
    cbn [collect flat_map]. unfold complete in C. unfold info.
    destruct (obj_Key obj), (obj_Size obj), (obj_LastModified obj); try discriminate.
    rewrite (IH _ H), <- app_assoc. reflexivity.
Qed.

Lemma collect_incomplete : forall contents files,
  forallb complete contents = false ->
  exists k, collect contents files = inl (KeyError k).
Proof.
  induction contents as [|obj contents IH]; intros files H; [discriminate|].
  cbn [forallb] in H. cbn [collect]. unfold complete in H.
  destruct (obj_Key obj); [|eauto].
  destruct (obj_Size obj); [|eauto].
  destruct (obj_LastModified obj); [|eauto].
  cbn [andb] in H. apply IH, H.
Qed.

Lemma info_length : forall contents,
  forallb complete contents = true ->
  List.length (flat_map info contents) = List.length contents.
Proof.
  induction contents as [|obj contents IH]; intros H; [reflexivity|].
  cbn [forallb] in H. apply andb_prop in H as [C H].
  cbn [flat_map]. rewrite List.length_app, (IH H).
  unfold complete in C. unfold info.
  destruct (obj_Key obj), (obj_Size obj), (obj_LastModified obj); try discriminate.
  reflexivity.
Qed.

(** X15.  [list_files] is all or nothing: when the listing has a
    [Contents] entry it returns one record per object, in order, if every
    object has its key, size and date; if any object lacks one of them the
    records gathered so far are dropped, one error line is printed and the
    empty list is returned.  It never raises. *)
Theorem list_files_all_or_nothing : forall self client prefix bucket contents,
  s3_list_objects_v2 client (bucket_or bucket (default_bucket self)) prefix
  = inr (Some contents) ->
  (forallb complete contents = true ->
   list_files self client prefix bucket = (flat_map info contents, []) /\
   List.length (fst (list_files self client prefix bucket)) = List.length contents) /\
  (forallb complete contents = false ->
   exists k,
     list_files self client prefix bucket =
     ([], [("Error listing files: " ++ exn_msg (KeyError k))%string])).
Proof.
  intros self client prefix bucket contents R. unfold list_files. rewrite R. split.
  - intros C. rewrite (collect_complete contents [] C). cbn [app fst].
    split; [reflexivity | apply info_length, C].
  - intros C. destruct (collect_incomplete contents [] C) as [k ->].
    exists k. reflexivity.
Qed.

Lemma list_files_all_or_nothing_witness :
  exists k,
    list_files SampleStore.self SampleStore.s3 "" None
    = ([], [("Error listing files: " ++ exn_msg (KeyError k))%string]).
Proof.
  exact (proj2 (list_files_all_or_nothing SampleStore.self SampleStore.s3 "" None _
                  eq_refl) eq_refl).
Defined.

Example list_files_drops_the_partial_list :
  list_files SampleStore.self SampleStore.s3 "" None
  = ([], ["Error listing files: 'Size'"]).
Proof. reflexivity. Qed.
